(** * fitness-chatAI: the command-line front end and the services it drives

    A shallow embedding of [cli.py] (the interactive [chat] loop) and of
    [init_knowledge_base.py] (batch ingestion), together with models of the
    services they call: the conversation manager, the retriever, the chunker.

    Python values are embedded as follows.
    - [str] is a list of Unicode code points ([pystr]).
    - [int] is [Z]; sizes and indices that are never negative are [nat].
    - [float] scores are rationals ([Q]); only their order is used.
    - an exception is a constructor of [Exn]; a call that may raise returns
      an [Outcome].
    - [dict] keyed by conversation id is a [gmap].
    - the console of the [rich] library is a parameter: for each output
      that holds text not fixed by the program, whether it renders it or
      the fault on which it raises [MarkupError]. *)

From Stdlib Require Import ZArith QArith List Lia String Ascii.
From stdpp Require Import base option list gmap sorting pretty.
Import ListNotations.
Open Scope nat_scope.

(** ** Python strings *)

Module PyStr.

Abbreviation pystr := (list N).

(** A string literal of the source (ASCII only) as code points. *)
Definition lit (s : string) : pystr :=
  (λ a, N_of_ascii a) <$> list_ascii_of_string s.

(** [str.isspace] for one code point: the characters [str.strip()] removes
    when called without argument. *)
Definition is_space (c : N) : bool :=
  ((9 <=? c) && (c <=? 13) || (28 <=? c) && (c <=? 32)
   || (c =? 133) || (c =? 160) || (c =? 5760)
   || (8192 <=? c) && (c <=? 8202)
   || (c =? 8232) || (c =? 8233) || (c =? 8239) || (c =? 8287)
   || (c =? 12288))%N.

Fixpoint lstrip (s : pystr) : pystr :=
  match s with
  | c :: s' => if is_space c then lstrip s' else s
  | [] => []
  end.

Definition rstrip (s : pystr) : pystr := rev (lstrip (rev s)).

(** [s.strip()] *)
Definition strip (s : pystr) : pystr := rstrip (lstrip s).

(** [s.lower()]. The capitals A to Z are mapped to a to z; a code point
    outside ASCII is left as it is, so the result agrees with Python's on
    every comparison with an ASCII literal that has no k in it (the only
    non-ASCII code point whose lower case is ASCII is the Kelvin sign). *)
Definition lower_char (c : N) : N :=
  if ((65 <=? c) && (c <=? 90))%N then (c + 32)%N else c.

Definition lower (s : pystr) : pystr := lower_char <$> s.

(** [s.startswith(p)] *)
Fixpoint startswith (s p : pystr) : bool :=
  match p, s with
  | [], _ => true
  | _ :: _, [] => false
  | a :: p', b :: s' => if decide (a = b) then startswith s' p' else false
  end.

(** [x or None] for a string [x]: the empty string is falsy. *)
Definition or_None (s : pystr) : option pystr :=
  match s with [] => None | _ => Some s end.

End PyStr.
Export PyStr.

(** ** Exceptions and results *)

(** The two ways in which the console of the [rich] library fails on the
    markup it is given: a closing tag that matches no open tag, and a
    handler tag whose parameters do not parse when it is closed. *)
Inductive MarkupFault : Type := ClosingTag | HandlerParameters.

(** The error taxonomy of the services, plus the built-in and library
    exceptions the command-line front end can meet: [MarkupError] is what
    the console raises for markup it cannot render, [TyperExit] is
    [typer.Exit]. [KeyboardInterrupt], [SystemExit] and [CancelledError]
    are the ones that are not subclasses of [Exception]. *)
Inductive Exn : Type :=
| KeyboardInterrupt
| SystemExit (code : Z)
| CancelledError
| UnboundLocalError (variable : string)
| NotFoundError
| EmbeddingError
| IndexError
| GenerationError
| IngestionError
| MarkupError (fault : MarkupFault)
| TyperExit (code : Z).

Definition is_Exception (e : Exn) : bool :=
  match e with
  | KeyboardInterrupt | SystemExit _ | CancelledError => false
  | _ => true
  end.

(** The exit status of the program when the exception gets out of it: the
    code of [SystemExit] and of [typer.Exit], and 1 for any other. *)
Definition exit_status (e : Exn) : Z :=
  match e with
  | SystemExit code | TyperExit code => code
  | _ => 1%Z
  end.

Inductive Outcome (A : Type) : Type :=
| Returned (a : A)
| Raised (e : Exn).
Arguments Returned {A} a.
Arguments Raised {A} e.

(** ** Data model *)

Record RetrievalResult : Type := mkRetrievalResult {
  content : pystr;
  source : pystr;
  score : Q
}.

Inductive MessageRole : Type := USER | ASSISTANT.

Record Message : Type := mkMessage {
  role : MessageRole;
  msg_content : pystr;
  sources : list RetrievalResult;
  timestamp : nat
}.

Record Conversation : Type := mkConversation {
  id : pystr;
  title : pystr;
  messages : list Message;
  created_at : nat;
  updated_at : nat
}.

(** ** Conversation Store *)

Module ConversationManager.

(** Modelled from the spec: the conversation manager
    ([app.services.conversation_manager]) is not among the sources; this is
    the Conversation Store of the specification (create, get, append,
    history, delete). Conversations are kept by id; [issued] is every id
    handed out so far, so that an id is unique for the store's lifetime;
    [clock] is the time source read for the timestamps. *)
Record Store : Type := mkStore {
  conversations : gmap pystr Conversation;
  issued : gset pystr;
  clock : nat
}.

Definition empty : Store :=
  {| conversations := ∅; issued := ∅; clock := 0 |}.

(** Modelled from the spec: the title given to a conversation created
    without one, a placeholder derived from the creation time. *)
Definition placeholder_title (now : nat) : pystr :=
  lit ("conversation " +:+ pretty now).

(** Modelled from the spec: [create(title?)], a new conversation with an id
    that was never issued before and no message. *)
Definition create_conversation (new_title : option pystr) (s : Store)
  : Conversation * Store :=
  let now := clock s in
  let cid : pystr := fresh (issued s) in
  let c := {| id := cid;
              title := default (placeholder_title now) new_title;
              messages := [];
              created_at := now;
              updated_at := now |} in
  (c, {| conversations := <[cid := c]> (conversations s);
         issued := {[cid]} ∪ issued s;
         clock := S now |}).

(** Modelled from the spec: [get(id)], the conversation or not-found. *)
Definition get_conversation (cid : pystr) (s : Store) : option Conversation :=
  conversations s !! cid.

(** Modelled from the spec: [append(id, role, content, sources?)]. An
    unknown id fails with [NotFoundError] and leaves the store as it was;
    a known id gets one message more, stamped with the current time, which
    also becomes the conversation's [updated_at]. All of it is one step. *)
Definition add_message (cid : pystr) (r : MessageRole) (text : pystr)
    (srcs : option (list RetrievalResult)) (s : Store)
  : Outcome Message * Store :=
  match conversations s !! cid with
  | None => (Raised NotFoundError, s)
  | Some c =>
      let now := clock s in
      let m := {| role := r; msg_content := text;
                  sources := default [] srcs; timestamp := now |} in
      let c' := {| id := id c; title := title c;
                   messages := messages c ++ [m];
                   created_at := created_at c;
                   updated_at := now |} in
      (Returned m, {| conversations := <[cid := c']> (conversations s);
                      issued := issued s;
                      clock := S now |})
  end.

(** Modelled from the spec: [history(id)], every message in the order of
    appending, none dropped. An unknown id has no message. *)
Definition get_conversation_history (cid : pystr) (s : Store) : list Message :=
  match conversations s !! cid with
  | Some c => messages c
  | None => []
  end.

(** Modelled from the spec: [delete(id)], whether a conversation existed. *)
Definition delete_conversation (cid : pystr) (s : Store) : bool * Store :=
  (bool_decide (is_Some (conversations s !! cid)),
   {| conversations := delete cid (conversations s);
      issued := issued s;
      clock := clock s |}).

End ConversationManager.

(** ** External capabilities used by the command-line front end *)

Record Health : Type := mkHealth {
  connected : bool;
  embedding_model_ready : bool;
  llm_model_ready : bool
}.

(** [app.services.ollama_client]: the generation gateway.
    [generate prompt system_prompt] is the completion, or the exception the
    backend call ends with. *)
Record OllamaClient : Type := mkOllamaClient {
  health_check : Health;
  generate : pystr → pystr → Outcome pystr
}.

(** [app.services.rag_service], as far as [chat] uses it: the system prompt
    constant and [generate_answer query conversation_history], which gives
    the answer with the retrieval results it cites, or raises. *)
Record RagService : Type := mkRagService {
  FITNESS_COACH_SYSTEM_PROMPT : pystr;
  generate_answer :
    pystr → list Message → Outcome (pystr * list RetrievalResult)
}.

(** ** The interactive chat of [cli.py] *)

Module Cli.
Import ConversationManager.

(** What [console.print] is asked to show, one constructor per message of
    the source. *)
Inductive Output : Type :=
| Banner
| NotConnected
| ServiceStatus (h : Health)
| NoSuchConversation (cid : pystr)
| Continuing (conversation_title : pystr)
| CreatedShort (id_prefix : pystr)
| Hint
| Goodbye
| HelpPanel
| NoHistory
| HistoryTitle (conversation_title : pystr)
| HistoryRole (r : MessageRole)
| HistoryContent (shown : pystr)
| Created (conversation_title : pystr)
| CoachHeader
| Answer (markdown : pystr)
| SourcesHeader
| SourceLine (i : nat) (source_name : pystr) (relevance : Q)
| BlankLine
| ErrorLine (e : Exn).

(** What one run of the program does that can be seen from outside: what it
    prints and what it asks of the gateways. *)
Inductive Event : Type :=
| Print (o : Output)
| CallGenerate (prompt system_prompt : pystr)
| CallGenerateAnswer (query : pystr) (conversation_history : list Message).

(** The state [interactive_chat] works on: the conversation manager (a
    process-wide singleton) and its own local variable [current_id].
    [current_id] is assigned inside [interactive_chat] (by the [new]
    command) and not declared [nonlocal], so it is a local of that function,
    distinct from the [current_id] of the enclosing [chat], and unbound
    ([None]) until the assignment runs. *)
Record ChatState : Type := mkChatState {
  manager : Store;
  current_id : option pystr
}.

(** Computations of the program: they read and write the state, leave a
    trace of events and may raise. *)
Definition Chat (A : Type) : Type :=
  ChatState → Outcome A * ChatState * list Event.

Definition ret {A} (a : A) : Chat A := λ st, (Returned a, st, []).

Definition bind {A B} (m : Chat A) (k : A → Chat B) : Chat B := λ st,
  match m st with
  | (Returned a, st', ev) =>
      match k a st' with
      | (r, st'', ev') => (r, st'', ev ++ ev')
      end
  | (Raised e, st', ev) => (Raised e, st', ev)
  end.

Notation "x <- m ;; k" := (bind m (λ x, k))
  (at level 20, m at level 99, k at level 200, only parsing).
Notation "' p <- m ;; k" := (bind m (λ x, match x with p => k end))
  (at level 20, p pattern, m at level 99, k at level 200, only parsing).
Notation "m ;; k" := (bind m (λ _, k))
  (at level 100, k at level 200, only parsing, right associativity).

Definition raise {A} (e : Exn) : Chat A := λ st, (Raised e, st, []).

Definition emit (e : Event) : Chat unit := λ st, (Returned tt, st, [e]).

(** Reading the local variable [current_id]. *)
Definition read_current_id : Chat pystr := λ st,
  match current_id st with
  | Some cid => (Returned cid, st, [])
  | None => (Raised (UnboundLocalError "current_id"), st, [])
  end.

Definition assign_current_id (cid : pystr) : Chat unit := λ st,
  (Returned tt, {| manager := manager st; current_id := Some cid |}, []).

(** A call of the conversation manager singleton. *)
Definition with_manager {A} (f : Store → A * Store) : Chat A := λ st,
  match f (manager st) with
  | (a, s') =>
      (Returned a, {| manager := s'; current_id := current_id st |}, [])
  end.

Definition with_manager_raising {A} (f : Store → Outcome A * Store)
  : Chat A := λ st,
  match f (manager st) with
  | (r, s') => (r, {| manager := s'; current_id := current_id st |}, [])
  end.

Definition of_outcome {A} (r : Outcome A) : Chat A := λ st, (r, st, []).

Fixpoint for_each {A} (l : list A) (body : A → Chat unit) : Chat unit :=
  match l with
  | [] => ret tt
  | x :: l' => body x ;; for_each l' body
  end.

(** [enumerate(l, 1)] *)
Definition enumerate1 {A} (l : list A) : list (nat * A) :=
  zip (seq 1 (length l)) l.

(** [msg.content[:200] + "..." if len(msg.content) > 200 else msg.content] *)
Definition preview (text : pystr) : pystr :=
  if 200 <? length text then take 200 text ++ lit "..." else text.

(** The output interpolates text that is not fixed by the program (a
    title, a message, a source name, an id, the text of an exception) into
    the markup handed to the console. The message of [UnboundLocalError]
    is fixed text, and so is that of [MarkupError], dealt with below; the
    service status shows settings; an answer is rendered as Markdown, not
    as markup. *)
Definition free_text (o : Output) : bool :=
  match o with
  | NoSuchConversation _ | Continuing _ | CreatedShort _
  | HistoryTitle _ | HistoryContent _ | Created _ | SourceLine _ _ _ => true
  | ErrorLine (UnboundLocalError _) | ErrorLine (MarkupError _) => false
  | ErrorLine _ => true
  | _ => false
  end.

Inductive Control : Type :=
| Continue
| Break
| Abort (e : Exn).

Section Chat.
(** The console of the [rich] library, as far as the program depends on
    it: for an output that holds free text, [None] when it renders it, or
    the fault on which it raises [MarkupError]. None of the interpolated
    texts is escaped anywhere in [cli.py]. *)
Context (console : Output → option MarkupFault).
Context (ollama_client : OllamaClient) (rag_service : RagService).
Context (no_rag : bool).

(** The fault [console.print] meets on an output, if any. Fixed text is
    always rendered. The message of a [MarkupError] for a closing tag
    quotes that tag, so that inside the markup of the error line it fails
    in the same way again; the message for handler parameters holds no
    tag. *)
Definition fault (o : Output) : option MarkupFault :=
  match o with
  | ErrorLine (MarkupError ClosingTag) => Some ClosingTag
  | _ => if free_text o then console o else None
  end.

(** [console.print(o)] *)
Definition say (o : Output) : Chat unit :=
  match fault o with
  | None => emit (Print o)
  | Some f => raise (MarkupError f)
  end.

(** [show_conversation_history], lines 203 to 219. *)
Definition show_conversation_history (conversation_id : pystr) : Chat unit :=
  conversation <- with_manager (λ s, (get_conversation conversation_id s, s)) ;;
  match conversation with
  | None => say NoHistory
  | Some c =>
      match messages c with
      | [] => say NoHistory
      | _ =>
          say (HistoryTitle (title c)) ;;
          for_each (messages c)
            (λ msg,
               say (HistoryRole (role msg)) ;;
               say (HistoryContent (preview (msg_content msg))) ;;
               say BlankLine)
      end
  end.

(** The answer and its sources, lines 141 to 154. *)
Definition answer_for (user_input : pystr) (history : list Message)
  : Chat (pystr * list RetrievalResult) :=
  if no_rag then
    emit (CallGenerate user_input (FITNESS_COACH_SYSTEM_PROMPT rag_service)) ;;
    answer <- of_outcome
      (generate ollama_client user_input
         (FITNESS_COACH_SYSTEM_PROMPT rag_service)) ;;
    ret (answer, [])
  else
    emit (CallGenerateAnswer user_input (removelast history)) ;;
    of_outcome (generate_answer rag_service user_input (removelast history)).

(** Lines 169 to 172: the sources shown as references, at most three. *)
Definition show_sources (sources : list RetrievalResult) : Chat unit :=
  match sources with
  | [] => ret tt
  | _ =>
      say SourcesHeader ;;
      for_each (enumerate1 (take 3 sources))
        (λ '(i, src), say (SourceLine i (source src) (score src)))
  end.

(** Lines 122 to 174: a question to the coach. *)
Definition question (user_input : pystr) : Chat Control :=
  cid <- read_current_id ;;
  with_manager_raising (add_message cid USER user_input None) ;;
  cid <- read_current_id ;;
  history <- with_manager (λ s, (get_conversation_history cid s, s)) ;;
  '(answer, sources) <- answer_for user_input history ;;
  cid <- read_current_id ;;
  with_manager_raising (add_message cid ASSISTANT answer (Some sources)) ;;
  say CoachHeader ;;
  say (Answer answer) ;;
  show_sources sources ;;
  say BlankLine ;;
  ret Continue.

(** The body of the [try] statement, after [Prompt.ask] has returned
    [user_input]. *)
Definition turn_body (user_input : pystr) : Chat Control :=
  if bool_decide (lower user_input ∈ [lit "quit"; lit "exit"; lit "q"]) then
    say Goodbye ;; ret Break
  else if bool_decide (lower user_input = lit "help") then
    say HelpPanel ;; ret Continue
  else if bool_decide (lower user_input = lit "history") then
    cid <- read_current_id ;;
    show_conversation_history cid ;;
    ret Continue
  else if startswith (lower user_input) (lit "new ") then
    let new_title := strip (drop 4 user_input) in
    conversation <- with_manager (create_conversation (or_None new_title)) ;;
    assign_current_id (id conversation) ;;
    say (Created (title conversation)) ;;
    ret Continue
  else if bool_decide (strip user_input = []) then
    ret Continue
  else
    question user_input.

(** The two handlers of the [try] statement, lines 176 to 180, for an
    exception [e] raised in its body: what becomes of the loop and what is
    printed. [KeyboardInterrupt] says goodbye and leaves the loop; an
    [Exception] is printed, and the loop goes on unless that print itself
    raises, which nothing catches; any other exception is not caught. *)
Definition handle (e : Exn) : Control * list Event :=
  match e with
  | KeyboardInterrupt => (Break, [Print Goodbye])
  | _ =>
      if is_Exception e then
        match fault (ErrorLine e) with
        | None => (Continue, [Print (ErrorLine e)])
        | Some f => (Abort (MarkupError f), [])
        end
      else (Abort e, [])
  end.

(** One iteration of [while True]: the body under its two handlers. *)
Definition turn (user_input : pystr) (st : ChatState)
  : Control * ChatState * list Event :=
  match turn_body user_input st with
  | (Returned c, st', ev) => (c, st', ev)
  | (Raised e, st', ev) => ((handle e).1, st', ev ++ (handle e).2)
  end.

(** [interactive_chat], fed with the lines the user types. It stops at the
    first turn that leaves the loop, by [break] or by an exception that is
    not caught; when the lines run out the user is still at the prompt. *)
Fixpoint interactive_chat (inputs : list pystr) (st : ChatState)
  : Control * ChatState * list Event :=
  match inputs with
  | [] => (Continue, st, [])
  | user_input :: rest =>
      match turn user_input st with
      | (Continue, st', ev) =>
          match interactive_chat rest st' with
          | (c, st'', ev') => (c, st'', ev ++ ev')
          end
      | (c, st', ev) => (c, st', ev)
      end
  end.

(** Lines 50 to 92 of [chat]: banner, service check, the conversation to
    continue (when [--conversation] is given and not empty) or a new one.
    [raise typer.Exit(1)] is [TyperExit 1]. *)
Definition setup (conversation_id : option pystr) : Chat unit :=
  say Banner ;;
  let h := health_check ollama_client in
  if negb (connected h) then
    say NotConnected ;; raise (TyperExit 1)
  else
    say (ServiceStatus h) ;;
    match conversation_id ≫= or_None with
    | Some cid =>
        conversation <- with_manager (λ s, (get_conversation cid s, s)) ;;
        match conversation with
        | None => say (NoSuchConversation cid) ;; raise (TyperExit 1)
        | Some c => say (Continuing (title c))
        end
    | None =>
        conversation <- with_manager (create_conversation None) ;;
        say (CreatedShort (take 8 (id conversation)))
    end ;;
    say Hint.

(** The [chat] command: the set-up, then the loop, whose [current_id]
    starts unbound. The result is the exit status of the program: 0 when
    the loop is left by [break], that of the exception when one gets out
    of the set-up or of the loop. *)
Definition chat (conversation_id : option pystr) (inputs : list pystr)
    (s : Store) : Z * Store * list Event :=
  match setup conversation_id {| manager := s; current_id := None |} with
  | (Returned _, st, ev) =>
      match interactive_chat inputs st with
      | (c, st', ev') =>
          (match c with Abort e => exit_status e | _ => 0%Z end,
           manager st', ev ++ ev')
      end
  | (Raised e, st, ev) => (exit_status e, manager st, ev)
  end.

End Chat.

End Cli.

(** ** Retriever *)

Module Retriever.

(** Modelled from the spec: an entry of the Vector Index, the vector with
    the text and the source name it was stored under. The index is the list
    of its entries in insertion order. *)
Record IndexEntry : Type := mkIndexEntry {
  entry_vector : list Q;
  entry_text : pystr;
  entry_source : pystr
}.

Definition by_score_desc (a b : RetrievalResult) : Prop :=
  (score b <= score a)%Q.

(** Modelled from the spec: a similarity brought into the interval from 0
    to 1. *)
Definition normalized (q : Q) : Q :=
  if Qle_bool q 0 then 0%Q else if Qle_bool 1 q then 1%Q else q.

(** Modelled from the spec: ranking by score, highest first; of two results
    with the same score the one inserted first in the index stays first. *)
Fixpoint insert_ranked (x : RetrievalResult) (l : list RetrievalResult)
  : list RetrievalResult :=
  match l with
  | [] => [x]
  | y :: l' =>
      if Qle_bool (score y) (score x) then x :: l
      else y :: insert_ranked x l'
  end.

Definition rank (l : list RetrievalResult) : list RetrievalResult :=
  foldr insert_ranked [] l.

Section Retrieve.
Context (embed : pystr → Outcome (list Q)).
Context (similarity : list Q → list Q → Q).
Context (relevance_floor : option Q).

Definition clears_floor (r : RetrievalResult) : bool :=
  match relevance_floor with
  | Some f => Qle_bool f (score r)
  | None => true
  end.

Definition to_result (v : list Q) (e : IndexEntry) : RetrievalResult :=
  {| content := entry_text e;
     source := entry_source e;
     score := normalized (similarity v (entry_vector e)) |}.

(** Modelled from the spec: the nearest-neighbour query of the Vector
    Index, the [top_k] best matches with their scores. *)
Definition query_index (index : list IndexEntry) (v : list Q) (top_k : Z)
  : list RetrievalResult :=
  take (Z.to_nat top_k) (rank (filter clears_floor (to_result v <$> index))).

(** Modelled from the spec: [retrieve(query, top_k)] of the RAG service
    ([app.services.rag_service] is not among the sources; [cli.py] only
    calls it). An empty index is answered with the empty sequence and no
    error; otherwise the query is embedded, an [EmbeddingError] of the
    gateway is passed on, and the index is queried with the vector. *)
Definition retrieve (index : list IndexEntry) (query : pystr) (top_k : Z)
  : Outcome (list RetrievalResult) :=
  match index with
  | [] => Returned []
  | _ =>
      match embed query with
      | Returned v => Returned (query_index index v top_k)
      | Raised e => Raised e
      end
  end.

End Retrieve.

End Retriever.

(** ** Chunker *)

Module Chunker.

(** Modelled from the spec: a chunk as [split] produces it; the id, source
    and metadata of the data model are attached by the ingestion pipeline
    from its own arguments. *)
Record Chunk : Type := mkChunk {
  text : pystr;
  sequence_index : nat
}.

Section Split.
(** The place where a window of text is cut by preference: the length of a
    prefix that ends at a paragraph or sentence boundary, when the window
    has one. *)
Context (boundary : pystr → option nat).
Context (max_chunk_size overlap : nat).

(** Modelled from the spec: where the next chunk ends. The preferred
    boundary is taken when it lies within the size budget and beyond the
    overlap; otherwise the cut is a hard one at [max_chunk_size]. *)
Definition cut_point (rest : pystr) : nat :=
  match boundary (take max_chunk_size rest) with
  | Some p =>
      if (overlap <? p) && (p <=? max_chunk_size) then p else max_chunk_size
  | None => max_chunk_size
  end.

(** Modelled from the spec: the chunks of [rest], which begins with the
    overlap shared with the chunk before. What fits the size budget is the
    final chunk; otherwise a chunk is cut and the next one starts [overlap]
    characters before the cut. [fuel] bounds the number of chunks. *)
Fixpoint split_from (fuel : nat) (rest : pystr) : list pystr :=
  match fuel with
  | 0 => []
  | S fuel' =>
      if length rest <=? max_chunk_size then [rest]
      else
        let cut := cut_point rest in
        take cut rest :: split_from fuel' (drop (cut - overlap) rest)
  end.

(** Modelled from the spec: [split(document_text, max_chunk_size, overlap)]
    (the chunker is not among the sources). An empty document has no
    chunk. *)
Definition split (document_text : pystr) : list Chunk :=
  match document_text with
  | [] => []
  | _ =>
      imap (λ i t, {| text := t; sequence_index := i |})
        (split_from (length document_text) document_text)
  end.

(** The chunks put together again: the first one whole, every later one
    without its leading overlap. *)
Definition reassemble (chunks : list Chunk) : pystr :=
  match chunks with
  | [] => []
  | c :: cs => text c ++ concat ((λ c', drop overlap (text c')) <$> cs)
  end.

End Split.

(** A boundary finder: the cut is preferred right after the last full
    stop, question mark, exclamation mark or line feed of the window. *)
Fixpoint last_sentence_end (window : pystr) : option nat :=
  match window with
  | [] => None
  | c :: w =>
      match last_sentence_end w with
      | Some p => Some (S p)
      | None =>
          if bool_decide (c ∈ [10; 33; 46; 63; 12290]%N) then Some 1 else None
      end
  end.

End Chunker.

(** ** Batch ingestion, [init_knowledge_base.py] *)

Module InitKnowledgeBase.

(** An entry of the knowledge base directory, with what [pathlib] reports
    for it. *)
Record DirEntry : Type := mkDirEntry {
  name : pystr;
  is_file : bool;
  suffix : pystr
}.

Record KnowledgeStats : Type := mkKnowledgeStats {
  total_documents : Z;
  total_chunks : Z;
  collection_name : pystr
}.

(** What the script asks the console to show. The file names it puts into
    the markup come from [kb_dir.iterdir()]: a path component holds no
    slash, hence no closing tag, and the console raises [MarkupError] at a
    closing tag only; the statistics are counters and a setting of the
    service. So every line of the script is rendered. *)
Inductive Output : Type :=
| Starting
| DirectoryMissing
| NoDocuments
| Found (count : nat)
| Imported (file_name : pystr) (chunks : Z)
| ImportFailed (file_name : pystr)
| Summary (success_count : Z) (files : nat) (chunks : Z)
| Stats (stats : KnowledgeStats).

(** What the script does: what it prints, and each call of
    [add_knowledge_from_file] with what it returned. *)
Inductive Step : Type :=
| Shown (o : Output)
| Ingested (path : pystr) (success : bool) (chunks : Z).

Definition supported_extensions : list pystr :=
  [lit ".txt"; lit ".md"; lit ".pdf"; lit ".docx"].

Definition kb_dir : pystr := lit "data/knowledge_base".

(** [str(kb_dir / name)] *)
Definition path_of (f : DirEntry) : pystr := kb_dir ++ lit "/" ++ name f.

(** Lines 31 to 35: the files of the directory with a supported
    extension. *)
Definition document_files (entries : list DirEntry) : list DirEntry :=
  filter (λ f, is_file f = true
               ∧ lower (suffix f) ∈ supported_extensions) entries.

Section Script.
(** The RAG service with the knowledge base [KB] it writes to.
    [add_knowledge_from_file path metadata] answers with
    [(success, chunk_count)]; a document it cannot ingest is answered with
    [success = False]. *)
Context {KB : Type}.
Context (add_knowledge_from_file :
           pystr → list (pystr * pystr) → KB → (bool * Z) * KB).
Context (get_knowledge_stats : KB → KnowledgeStats).

(** Lines 53 to 71, the loop over the files with its two counters. *)
Fixpoint import_files (files : list DirEntry) (success_count total : Z)
    (kb : KB) : (Z * Z) * KB * list Step :=
  match files with
  | [] => ((success_count, total), kb, [])
  | file_path :: rest =>
      match add_knowledge_from_file (path_of file_path)
              [(lit "category", lit "fitness_knowledge")] kb with
      | ((success, chunks), kb') =>
          let counters :=
            if success then ((success_count + 1)%Z, (total + chunks)%Z)
            else (success_count, total) in
          let line :=
            if success then Imported (name file_path) chunks
            else ImportFailed (name file_path) in
          match import_files rest counters.1 counters.2 kb' with
          | (r, kb'', steps) =>
              (r, kb'',
               Ingested (path_of file_path) success chunks
               :: Shown line :: steps)
          end
      end
  end.

(** [init_knowledge_base()]. The directory is [None] when it does not
    exist; it is then created and nothing is imported. *)
Definition init_knowledge_base (dir : option (list DirEntry)) (kb : KB)
  : KB * list Step :=
  match dir with
  | None => (kb, [Shown Starting; Shown DirectoryMissing])
  | Some entries =>
      let files := document_files entries in
      match files with
      | [] => (kb, [Shown Starting; Shown NoDocuments])
      | _ =>
          match import_files files 0 0 kb with
          | ((success_count, total), kb', steps) =>
              (kb',
               [Shown Starting; Shown (Found (length files))] ++ steps
               ++ [Shown (Summary success_count (length files) total);
                   Shown (Stats (get_knowledge_stats kb'))])
          end
      end
  end.

End Script.

End InitKnowledgeBase.

(** ** The other commands of [cli.py] *)

Module Commands.
Import ConversationManager.

(** [text[:limit] + "..." if len(text) > limit else text], the cut applied
    to a message in [show_conversation_history] (limit 200) and to a
    passage in [search_knowledge] (limit 300). *)
Definition clip (limit : nat) (text : pystr) : pystr :=
  if limit <? length text then take limit text ++ lit "..." else text.

Inductive Output : Type :=
| AskDelete (id_prefix : pystr)
| Cancelled
| Deleted
| NotExisting
| NoResults
| ResultsHeader (query : pystr)
| Panel (i : nat) (source_name : pystr) (relevance : Q) (body : pystr).

(** The [delete_conversation] command, lines 257 to 273. [confirmed] is the
    answer given to [Confirm.ask]. *)
Definition delete_conversation (conversation_id : pystr) (confirmed : bool)
    (s : Store) : Store * list Output :=
  if negb confirmed then
    (s, [AskDelete (take 8 conversation_id); Cancelled])
  else
    match ConversationManager.delete_conversation conversation_id s with
    | (success, s') =>
        (s', [AskDelete (take 8 conversation_id);
              if success then Deleted else NotExisting])
    end.

Section Search.
(** The console: for the header with the query and for a panel with its
    title and content, [None] when it renders them, or the fault on which
    it raises [MarkupError]. *)
Context (console : Output → option MarkupFault).

Definition fault (o : Output) : option MarkupFault :=
  match o with
  | ResultsHeader _ | Panel _ _ _ _ => console o
  | _ => None
  end.

(** A sequence of [console.print] calls outside any [try]: what is shown,
    and the exception of the first output on which the console fails. *)
Fixpoint print_all (outs : list Output) : Outcome unit * list Output :=
  match outs with
  | [] => (Returned tt, [])
  | o :: rest =>
      match fault o with
      | None =>
          match print_all rest with
          | (r, shown) => (r, o :: shown)
          end
      | Some f => (Raised (MarkupError f), [])
      end
  end.

(** The [search_knowledge] command, lines 336 to 362. [retrieve] is the
    method of the RAG service; an exception it raises leaves the command,
    and so does one raised by the console. *)
Definition search_knowledge
    (retrieve : pystr → Z → Outcome (list RetrievalResult))
    (query : pystr) (top_k : Z) : Outcome unit * list Output :=
  match retrieve query top_k with
  | Raised e => (Raised e, [])
  | Returned results =>
      match results with
      | [] => print_all [NoResults]
      | _ =>
          print_all
            (ResultsHeader query
             :: ((λ '(i, result),
                    Panel i (source result) (score result)
                      (clip 300 (content result)))
                   <$> Cli.enumerate1 results))
      end
  end.

End Search.

End Commands.

(** * Properties *)

(** ** Vocabulary of the statements about [chat] *)

Module ChatSpec.
Import ConversationManager Cli.

(** The input is a question: none of the commands, and not blank. *)
Definition is_question (user_input : pystr) : bool :=
  negb (bool_decide (lower user_input ∈ [lit "quit"; lit "exit"; lit "q"]))
  && negb (bool_decide (lower user_input = lit "help"))
  && negb (bool_decide (lower user_input = lit "history"))
  && negb (startswith (lower user_input) (lit "new "))
  && negb (bool_decide (strip user_input = [])).

(** The input is empty or made of whitespace only. *)
Definition blank (s : pystr) : Prop := Forall (λ c, is_space c = true) s.

(** The turn gets as far as the gateway: the input is a question and
    [current_id] is bound to a conversation of the store. *)
Definition reaches_generation (st : ChatState) (user_input : pystr) : bool :=
  is_question user_input
  && match current_id st with
     | Some cid => bool_decide (is_Some (conversations (manager st) !! cid))
     | None => false
     end.

Definition user_message (user_input : pystr) (now : nat) : Message :=
  {| role := USER; msg_content := user_input; sources := [];
     timestamp := now |}.

Definition assistant_message (answer : pystr) (srcs : list RetrievalResult)
    (now : nat) : Message :=
  {| role := ASSISTANT; msg_content := answer; sources := srcs;
     timestamp := now |}.

Definition is_call (e : Event) : bool :=
  match e with
  | CallGenerate _ _ | CallGenerateAnswer _ _ => true
  | Print _ => false
  end.

(** The requests made to the gateways, in order. *)
Definition calls (ev : list Event) : list Event := filter (λ e, is_call e = true) ev.

(** The reference lines shown to the user: number, source name, score. *)
Definition shown_sources (ev : list Event) : list (nat * pystr * Q) :=
  omap (λ e, match e with
             | Print (SourceLine i n r) => Some (i, n, r)
             | _ => None
             end) ev.

(** The reference lines of the first three sources, numbered from 1. *)
Definition reference_lines (srcs : list RetrievalResult)
  : list (nat * pystr * Q) :=
  (λ '(i, src), (i, source src, score src)) <$> enumerate1 (take 3 srcs).

(** What lines 169 to 172 ask the console to show for these sources. *)
Definition source_outputs (srcs : list RetrievalResult) : list Output :=
  match srcs with
  | [] => []
  | _ =>
      SourcesHeader
      :: ((λ '(i, src), SourceLine i (source src) (score src))
            <$> enumerate1 (take 3 srcs))
  end.

(** What lines 164 to 174 ask the console to show for an answer. *)
Definition answer_outputs (answer : pystr) (srcs : list RetrievalResult)
  : list Output :=
  CoachHeader :: Answer answer :: source_outputs srcs ++ [BlankLine].

(** What the [history] command asks the console to show for a
    conversation. *)
Definition history_outputs (c : Conversation) : list Output :=
  match messages c with
  | [] => [NoHistory]
  | _ =>
      HistoryTitle (title c)
      :: concat ((λ msg, [HistoryRole (role msg);
                          HistoryContent (preview (msg_content msg));
                          BlankLine]) <$> messages c)
  end.

Section Console.
Context (console : Output → option MarkupFault).

(** Whether [console.print] shows the output. *)
Definition prints (o : Output) : bool :=
  match fault console o with None => true | Some _ => false end.

(** Of a sequence of outputs printed one after the other, those that are
    shown: the ones before the first on which the console fails. *)
Fixpoint shown_prefix (outs : list Output) : list Output :=
  match outs with
  | [] => []
  | o :: rest => if prints o then o :: shown_prefix rest else []
  end.

(** The fault of the first of these outputs on which the console fails. *)
Fixpoint first_fault (outs : list Output) : option MarkupFault :=
  match outs with
  | [] => None
  | o :: rest =>
      match fault console o with
      | Some f => Some f
      | None => first_fault rest
      end
  end.

(** Of these reference lines, those the console shows: the ones before
    the first it does not render. *)
Fixpoint rendered_lines (lines : list (nat * pystr * Q))
  : list (nat * pystr * Q) :=
  match lines with
  | [] => []
  | (i, n, r) :: rest =>
      match console (SourceLine i n r) with
      | None => (i, n, r) :: rendered_lines rest
      | Some _ => []
      end
  end.

(** What printing these outputs one after the other comes to: the ones
    shown, and the [MarkupError] of the first on which the console
    fails. *)
Definition says (outs : list Output) : Chat unit := λ st,
  (match first_fault outs with
   | None => Returned tt
   | Some f => Raised (MarkupError f)
   end,
   st, Print <$> shown_prefix outs).

(** How a sequence of prints inside the [try] leaves the turn: the loop
    goes on when all is shown; a fault is caught and its message printed,
    which fails again when the fault is a closing tag. *)
Definition after_printing (outs : list Output) : Control * list Event :=
  match first_fault outs with
  | None => (Continue, Print <$> shown_prefix outs)
  | Some f =>
      ((handle console (MarkupError f)).1,
       (Print <$> shown_prefix outs) ++ (handle console (MarkupError f)).2)
  end.

End Console.

Section Gateway.
Context (ollama_client : OllamaClient) (rag_service : RagService).
Context (no_rag : bool).

(** What the gateway asked in this mode answers. *)
Definition gateway_result (user_input : pystr) (history : list Message)
  : Outcome (pystr * list RetrievalResult) :=
  if no_rag then
    match generate ollama_client user_input
            (FITNESS_COACH_SYSTEM_PROMPT rag_service) with
    | Returned a => Returned (a, [])
    | Raised e => Raised e
    end
  else generate_answer rag_service user_input history.

Definition gateway_call (user_input : pystr) (history : list Message)
  : Event :=
  if no_rag then
    CallGenerate user_input (FITNESS_COACH_SYSTEM_PROMPT rag_service)
  else CallGenerateAnswer user_input history.

End Gateway.

End ChatSpec.

(** ** Vocabulary of the statements about the conversation store *)

Module StoreSpec.
Import ConversationManager.

(** Every conversation was last updated before the present time of the
    store. *)
Definition timely (s : Store) : Prop :=
  ∀ cid c, conversations s !! cid = Some c → updated_at c < clock s.

End StoreSpec.

(** ** Vocabulary of the statements about batch ingestion *)

Module IngestSpec.
Import InitKnowledgeBase.

(** The calls of [add_knowledge_from_file] among the steps, in order, each
    with the path it was given and what it returned. *)
Definition outcomes (steps : list Step) : list (pystr * bool * Z) :=
  omap (λ s, match s with
             | Ingested p ok n => Some (p, ok, n)
             | Shown _ => None
             end) steps.

Definition successes (rs : list (pystr * bool * Z))
  : list (pystr * bool * Z) :=
  filter (λ r, r.1.2 = true) rs.

Definition chunk_sum (rs : list (pystr * bool * Z)) : Z :=
  foldr (λ r acc, (r.2 + acc)%Z) 0%Z rs.

(** What the script prints, in order. *)
Definition printed (steps : list Step) : list Output :=
  omap (λ s, match s with
             | Shown o => Some o
             | Ingested _ _ _ => None
             end) steps.

(** The line the loop prints for a file, given what the service answered
    for it. *)
Definition result_line (f : DirEntry) (o : pystr * bool * Z) : Output :=
  if o.1.2 then Imported (name f) o.2 else ImportFailed (name f).

Section Service.
Context {KB : Type}.
Context (add_knowledge_from_file :
           pystr → list (pystr * pystr) → KB → (bool * Z) * KB).

(** What the service itself answers when it is handed the files one after
    the other, each on the knowledge base the one before left: the path,
    the success flag and the chunk count. *)
Fixpoint service_answers (files : list DirEntry) (kb : KB)
  : list (pystr * bool * Z) :=
  match files with
  | [] => []
  | f :: rest =>
      let r := add_knowledge_from_file (path_of f)
                 [(lit "category", lit "fitness_knowledge")] kb in
      (path_of f, r.1.1, r.1.2) :: service_answers rest r.2
  end.

(** The knowledge base the service leaves after these files. *)
Fixpoint service_kb (files : list DirEntry) (kb : KB) : KB :=
  match files with
  | [] => kb
  | f :: rest =>
      service_kb rest
        (add_knowledge_from_file (path_of f)
           [(lit "category", lit "fitness_knowledge")] kb).2
  end.

End Service.

End IngestSpec.

(** ** Vocabulary of the statements about a chat session *)

Module SessionSpec.
Import ConversationManager Cli.

(** The input ends the session: [quit], [exit] or [q] in any letter
    case. *)
Definition is_quit (user_input : pystr) : bool :=
  bool_decide (lower user_input ∈ [lit "quit"; lit "exit"; lit "q"]).

(** The input is a [new] command. *)
Definition is_new (user_input : pystr) : bool :=
  startswith (lower user_input) (lit "new ").

(** The input is the [history] command. *)
Definition is_history (user_input : pystr) : bool :=
  bool_decide (lower user_input = lit "history").

(** Every conversation of the store has an id the store issued. *)
Definition well_formed (s : Store) : Prop :=
  dom (conversations s) ⊆ issued s.

(** The history of the conversation [current_id] is bound to. *)
Definition current_history (st : ChatState) : list Message :=
  match current_id st with
  | Some cid => get_conversation_history cid (manager st)
  | None => []
  end.

(** The contents shown among the outputs of the [history] command. *)
Definition history_contents (outs : list Output) : list pystr :=
  omap (λ o, match o with HistoryContent t => Some t | _ => None end) outs.

(** A conversation id was given to [chat] that the store does not hold. *)
Definition unknown_given (conversation_id : option pystr) (s : Store)
  : Prop :=
  ∃ cid, conversation_id ≫= or_None = Some cid
         ∧ conversations s !! cid = None.

(** The gateway raises nothing but [KeyboardInterrupt] and exceptions the
    handler of the loop can report. *)
Definition reportable_failures (ollama_client : OllamaClient)
    (rag_service : RagService) (no_rag : bool) : Prop :=
  ∀ q h e,
    ChatSpec.gateway_result ollama_client rag_service no_rag q h = Raised e →
    e = KeyboardInterrupt
    ∨ (is_Exception e = true ∧ e ≠ MarkupError ClosingTag).

(** The panels among the outputs of [search_knowledge]. *)
Definition panels (outs : list Commands.Output)
  : list (nat * pystr * Q * pystr) :=
  omap (λ o, match o with
             | Commands.Panel i n r b => Some (i, n, r, b)
             | _ => None
             end) outs.

(** The panels [search_knowledge] is to show for these results. *)
Definition result_panels (rs : list RetrievalResult)
  : list (nat * pystr * Q * pystr) :=
  imap (λ i r, (S i, source r, score r, Commands.clip 300 (content r))) rs.

End SessionSpec.

(** ** Sample collaborators and data *)

Module Samples.
Import ConversationManager Cli ChatSpec.

(** A console that renders whatever it is given. *)
Definition renders_all {A} : A → option MarkupFault := λ _, None.

(** [needle in hay] *)
Fixpoint contains (needle hay : pystr) : bool :=
  match hay with
  | [] => startswith [] needle
  | _ :: rest => startswith hay needle || contains needle rest
  end.

(** A console that, like the one of [rich], fails on a text holding the
    closing tag that closes whatever is open: put into any of the
    templates of [cli.py] it leaves a closing tag of the template
    unmatched. *)
Definition rich_like (o : Output) : option MarkupFault :=
  match o with
  | NoSuchConversation t | Continuing t | CreatedShort t | HistoryTitle t
  | HistoryContent t | Created t | SourceLine _ t _ =>
      if contains (lit "[/]") t then Some ClosingTag else None
  | _ => None
  end.

(** A console that fails on a text holding a handler tag with the
    parameters [f(], closed again. *)
Definition handler_console (o : Output) : option MarkupFault :=
  match o with
  | HistoryContent t | Created t =>
      if contains (lit "[@click=f(]x[/@click]") t
      then Some HandlerParameters else None
  | _ => None
  end.

Definition healthy : Health :=
  {| connected := true; embedding_model_ready := true;
     llm_model_ready := true |}.

Definition passage (n : pystr) (s : Q) : RetrievalResult :=
  {| content := lit "text of " ++ n; source := n; score := s |}.

Definition four_passages : list RetrievalResult :=
  [passage (lit "squat.md") (9 # 10); passage (lit "diet.md") (3 # 4);
   passage (lit "sleep.md") (1 # 2); passage (lit "run.md") (1 # 4)].


(** A backend that answers. *)
Definition ollama_up : OllamaClient :=
  {| health_check := healthy;
     generate := λ _ _, Returned (lit "Train three times a week.") |}.

Definition rag_up : RagService :=
  {| FITNESS_COACH_SYSTEM_PROMPT := lit "You are a fitness coach.";
     generate_answer := λ _ _,
       Returned (lit "Squat with a straight back.", four_passages) |}.


(** A backend that is unreachable when asked to generate. *)
Definition ollama_down : OllamaClient :=
  {| health_check := healthy; generate := λ _ _, Raised GenerationError |}.

Definition rag_down : RagService :=
  {| FITNESS_COACH_SYSTEM_PROMPT := lit "You are a fitness coach.";
     generate_answer := λ _ _, Raised GenerationError |}.

(** A backend that does not answer the health check. *)
Definition ollama_off : OllamaClient :=
  {| health_check := {| connected := false; embedding_model_ready := false;
                        llm_model_ready := false |};
     generate := λ _ _, Raised GenerationError |}.

Definition squat_question : pystr := lit "how do I squat?".

(** The state in which [chat], started on an empty store without
    [--conversation], enters its loop. *)
Definition at_start : ChatState :=
  {| manager := (create_conversation None empty).2; current_id := None |}.

(** The state of the loop after [chat] was started on an empty store and
    the user typed [new legs]. *)
Definition after_new : ChatState :=
  (interactive_chat renders_all ollama_up rag_up false [lit "new legs"]
     at_start).1.2.

(** The same, one answered question later. *)
Definition after_one_question : ChatState :=
  (turn renders_all ollama_up rag_up false squat_question after_new).1.2.

(** The conversation that [new legs] created. *)
Definition legs_id : pystr := [1%N].

Definition legs : Conversation :=
  {| id := legs_id; title := lit "legs"; messages := [];
     created_at := 1; updated_at := 1 |}.

(** A RAG service whose generation is interrupted from the keyboard, and
    one whose generation is cancelled. *)
Definition rag_interrupted : RagService :=
  {| FITNESS_COACH_SYSTEM_PROMPT := lit "You are a fitness coach.";
     generate_answer := λ _ _, Raised KeyboardInterrupt |}.

Definition rag_cancelled : RagService :=
  {| FITNESS_COACH_SYSTEM_PROMPT := lit "You are a fitness coach.";
     generate_answer := λ _ _, Raised CancelledError |}.

(** A [retrieve] that answers with the first [top_k] of four passages. *)
Definition retrieve_passages (_ : pystr) (top_k : Z)
  : Outcome (list RetrievalResult) :=
  Returned (take (Z.to_nat top_k) four_passages).

(** A [retrieve] whose second passage quotes a closing tag. *)
Definition retrieve_tagged (_ : pystr) (_ : Z)
  : Outcome (list RetrievalResult) :=
  Returned [passage (lit "squat.md") (9 # 10);
            {| content := lit "write [/] to close a tag";
               source := lit "markup.md"; score := 3 # 4 |};
            passage (lit "sleep.md") (1 # 2)].

(** A console for [search_knowledge] that fails on a query, a source name
    or a passage holding the closing tag [[/]]. *)
Definition panel_console (o : Commands.Output) : option MarkupFault :=
  match o with
  | Commands.ResultsHeader q =>
      if contains (lit "[/]") q then Some ClosingTag else None
  | Commands.Panel _ n _ b =>
      if contains (lit "[/]") n || contains (lit "[/]") b
      then Some ClosingTag else None
  | _ => None
  end.

(** A vector index with three entries and a similarity for it. *)
Definition small_index : list Retriever.IndexEntry :=
  [Retriever.mkIndexEntry [1 # 2] (lit "warm up first") (lit "a.md");
   Retriever.mkIndexEntry [9 # 10] (lit "squat deep") (lit "b.md");
   Retriever.mkIndexEntry [1 # 5] (lit "drink water") (lit "c.md")].

Definition first_component (v w : list Q) : Q :=
  match v, w with
  | x :: _, y :: _ => (x * y)%Q
  | _, _ => 0%Q
  end.

Definition embed_one : pystr → Outcome (list Q) := λ _, Returned [1%Q].

(** An ingestion service over a knowledge base that counts its chunks: a
    file whose path has an even length is read as two chunks, any other
    file fails. *)
Definition counting_ingest (path : pystr) (_ : list (pystr * pystr))
    (kb : Z) : (bool * Z) * Z :=
  if Nat.even (length path) then ((true, 2%Z), (kb + 2)%Z)
  else ((false, 0%Z), kb).

Definition counting_stats (kb : Z) : InitKnowledgeBase.KnowledgeStats :=
  {| InitKnowledgeBase.total_documents := 0;
     InitKnowledgeBase.total_chunks := kb;
     InitKnowledgeBase.collection_name := lit "fitness" |}.

Definition three_files : list InitKnowledgeBase.DirEntry :=
  [InitKnowledgeBase.mkDirEntry (lit "a.md") true (lit ".md");
   InitKnowledgeBase.mkDirEntry (lit "bad.pdf") true (lit ".pdf");
   InitKnowledgeBase.mkDirEntry (lit "plan.TXT") true (lit ".TXT")].

(** A document of a thousand letters, and one of three sentences. *)
Definition thousand_letters : pystr := replicate 1000 97%N.

Definition three_sentences : pystr :=
  lit "Warm up first. Squat deep and keep the back straight. Then rest.".

End Samples.

(** ** Facts about strings *)

Module PyStrFacts.
Import ChatSpec.

Lemma lstrip_nil_inv s : lstrip s = [] → blank s.
Proof.
  unfold blank.
  induction s as [|c s IH]; simpl; [constructor|].
  destruct (is_space c) eqn:E; [|discriminate].
  intros H. constructor; [exact E|exact (IH H)].
Qed.

Lemma lstrip_head s c t : lstrip s = c :: t → is_space c = false.
Proof.
  induction s as [|d s IH]; simpl; [discriminate|].
  destruct (is_space d) eqn:E; [auto|]. by intros [= -> _].
Qed.

Lemma lstrip_blank s : blank s → lstrip s = [].
Proof. induction 1 as [|c s Hc _ IH]; simpl; [done|]. by rewrite Hc. Qed.

Lemma strip_nil_blank s : strip s = [] → blank s.
Proof.
  unfold strip, rstrip. intros H.
  apply lstrip_nil_inv.
  destruct (lstrip s) as [|c t] eqn:E; [done|].
  apply (f_equal (@rev N)) in H. rewrite rev_involutive in H. simpl in H.
  apply lstrip_nil_inv in H.
  apply lstrip_head in E.
  unfold blank in H. rewrite Forall_forall in H. specialize (H c).
  rewrite H in E; [done|].
  apply elem_of_app. right. by left.
Qed.

Lemma blank_strip_nil s : blank s → strip s = [].
Proof. intros H. unfold strip, rstrip. by rewrite (lstrip_blank s H). Qed.

Lemma lower_char_space c : is_space c = true → lower_char c = c.
Proof.
  unfold is_space, lower_char. intros H.
  destruct ((65 <=? c)%N && (c <=? 90)%N) eqn:E; [|done].
  apply andb_true_iff in E as [E1 E2].
  apply N.leb_le in E1, E2.
  repeat (apply orb_true_iff in H as [H|H]);
    repeat match goal with
    | H : (_ && _) = true |- _ => apply andb_true_iff in H as [? ?]
    | H : (_ <=? _)%N = true |- _ => apply N.leb_le in H
    | H : (_ =? _)%N = true |- _ => apply N.eqb_eq in H
    end; lia.
Qed.

Lemma lower_blank s : blank s → lower s = s.
Proof.
  induction 1 as [|c s Hc _ IH]; [done|].
  unfold lower in *. rewrite fmap_cons. by rewrite lower_char_space, IH.
Qed.

Lemma startswith_cons s c p :
  startswith s (c :: p) = true → ∃ s', s = c :: s'.
Proof.
  destruct s as [|d s]; simpl; [done|].
  destruct (decide (c = d)) as [->|]; [eauto|done].
Qed.

Lemma blank_not_literal s l :
  blank s → forallb is_space l = false → lower s ≠ l.
Proof.
  intros Hs Hl Heq. rewrite lower_blank in Heq by done. subst l.
  assert (forallb is_space s = true); [|congruence].
  apply forallb_forall. intros c Hc.
  eapply Forall_forall in Hs; [done|]. by apply list_elem_of_In.
Qed.

Lemma blank_not_prefixed s c p :
  blank s → is_space c = false → startswith (lower s) (c :: p) = false.
Proof.
  intros Hs Hc. rewrite lower_blank by done.
  destruct (startswith s (c :: p)) eqn:E; [|done].
  apply startswith_cons in E as [s' ->].
  inversion Hs; congruence.
Qed.

End PyStrFacts.

(** ** Facts about the conversation store *)

Module StoreFacts.
Import ConversationManager StoreSpec.

Lemma add_message_known cid r t srcs s c :
  conversations s !! cid = Some c →
  ∃ s', add_message cid r t srcs s =
          (Returned {| role := r; msg_content := t;
                       sources := default [] srcs; timestamp := clock s |},
           s')
        ∧ clock s' = S (clock s)
        ∧ issued s' = issued s
        ∧ conversations s' =
            <[cid := {| id := id c; title := title c;
                        messages := messages c ++
                          [{| role := r; msg_content := t;
                              sources := default [] srcs;
                              timestamp := clock s |}];
                        created_at := created_at c;
                        updated_at := clock s |}]> (conversations s).
Proof. intros H. unfold add_message. rewrite H. eauto. Qed.

Lemma add_message_unknown cid r t srcs s :
  conversations s !! cid = None →
  add_message cid r t srcs s = (Raised NotFoundError, s).
Proof. intros H. unfold add_message. by rewrite H. Qed.

Lemma history_after_append cid r t srcs s c :
  conversations s !! cid = Some c →
  get_conversation_history cid (add_message cid r t srcs s).2 =
  messages c ++ [{| role := r; msg_content := t;
                    sources := default [] srcs; timestamp := clock s |}].
Proof.
  intros H. destruct (add_message_known cid r t srcs s c H)
    as (s' & -> & _ & _ & Hc).
  simpl. unfold get_conversation_history. by rewrite Hc, lookup_insert_eq.
Qed.

Lemma history_other_after_append cid other r t srcs s :
  other ≠ cid →
  get_conversation_history other (add_message cid r t srcs s).2 =
  get_conversation_history other s.
Proof.
  intros Hne. unfold add_message, get_conversation_history.
  destruct (conversations s !! cid); simpl; [|done].
  by rewrite lookup_insert_ne.
Qed.

Lemma known_after_append cid r t srcs s :
  is_Some (conversations s !! cid) →
  is_Some (conversations (add_message cid r t srcs s).2 !! cid).
Proof.
  intros [c H]. destruct (add_message_known cid r t srcs s c H)
    as (s' & -> & _ & _ & Hc).
  simpl. rewrite Hc, lookup_insert_eq. eauto.
Qed.

Lemma clock_after_append cid r t srcs s :
  is_Some (conversations s !! cid) →
  clock (add_message cid r t srcs s).2 = S (clock s).
Proof.
  intros [c H]. destruct (add_message_known cid r t srcs s c H)
    as (s' & -> & Hclock & _). exact Hclock.
Qed.

(** Every store that can be reached is [timely]: the empty store is, and
    each operation keeps it so. *)
Lemma timely_empty : timely empty.
Proof. intros cid c H. unfold empty in H. simpl in H. by apply lookup_empty_Some in H. Qed.

Lemma timely_create t s : timely s → timely (create_conversation t s).2.
Proof.
  intros Hs cid c. unfold create_conversation. cbn [snd conversations clock].
  destruct (decide (cid = fresh (issued s))) as [->|Hne].
  - rewrite lookup_insert_eq. intros [= <-]. simpl. lia.
  - rewrite lookup_insert_ne by done. intros H. apply Hs in H. lia.
Qed.

Lemma timely_append cid r t srcs s :
  timely s → timely (add_message cid r t srcs s).2.
Proof.
  intros Hs other c. unfold add_message.
  destruct (conversations s !! cid) as [c0|] eqn:E; [|apply Hs].
  cbn [snd conversations clock].
  destruct (decide (other = cid)) as [->|Hne].
  - rewrite lookup_insert_eq. intros [= <-]. simpl. lia.
  - rewrite lookup_insert_ne by done. intros H. apply Hs in H. lia.
Qed.

Lemma timely_delete cid s : timely s → timely (delete_conversation cid s).2.
Proof.
  intros Hs other c. unfold delete_conversation. cbn [snd conversations clock].
  intros H. apply lookup_delete_Some in H as [_ H]. by apply Hs in H.
Qed.

(** Claim C6. Appending to a conversation id that the store does not hold
    fails with [NotFoundError] and leaves the store exactly as it was, so
    no conversation is created. Appending to an id the store holds returns
    the new message, built from the given role, content and sources and
    stamped with the present time of the store. The resulting store is the
    old one with that conversation replaced, and nothing else changed: the
    conversation has this one message more at the end of its history, its
    [updated_at] is the time of the message, which is later than the
    [updated_at] it had whenever that was in the past, and its other fields
    are kept; every other conversation is as before, no id is added or
    removed, and the time of the store has advanced by one. The append is
    all or nothing: in every case either the call raises and the store is
    identical, or it returns and the message is appended and [updated_at]
    set, both in the store it hands back. *)
Theorem append_unknown_fails_known_appends
    (s : Store) (cid : pystr) (r : MessageRole) (t : pystr)
    (srcs : option (list RetrievalResult)) :
  (conversations s !! cid = None →
   add_message cid r t srcs s = (Raised NotFoundError, s))
  ∧ (∀ c, conversations s !! cid = Some c →
     ∃ m s',
       add_message cid r t srcs s = (Returned m, s')
       ∧ role m = r ∧ msg_content m = t ∧ sources m = default [] srcs
       ∧ timestamp m = clock s
       ∧ (∃ c', conversations s' !! cid = Some c'
                ∧ messages c' = messages c ++ [m]
                ∧ updated_at c' = timestamp m
                ∧ id c' = id c ∧ title c' = title c
                ∧ created_at c' = created_at c
                ∧ conversations s' = <[cid := c']> (conversations s)
                ∧ (updated_at c < clock s → updated_at c < updated_at c'))
       ∧ (∀ other, other ≠ cid →
            conversations s' !! other = conversations s !! other)
       ∧ dom (conversations s') = dom (conversations s)
       ∧ issued s' = issued s
       ∧ clock s' = S (clock s)
       ∧ (timely s → timely s'))
  ∧ ((add_message cid r t srcs s).1 = Raised NotFoundError
     ∧ (add_message cid r t srcs s).2 = s
     ∧ conversations s !! cid = None
     ∨ ∃ m c c',
         (add_message cid r t srcs s).1 = Returned m
         ∧ conversations s !! cid = Some c
         ∧ conversations (add_message cid r t srcs s).2 !! cid = Some c'
         ∧ messages c' = messages c ++ [m]
         ∧ updated_at c' = timestamp m
         ∧ timestamp m = clock s).
Proof.
  split; [apply add_message_unknown|]. split.
  - intros c Hc.
    pose proof (timely_append cid r t srcs s) as Ht.
    destruct (add_message_known cid r t srcs s c Hc)
      as (s' & E & Hclock & Hissued & Hconv).
    rewrite E in Ht. cbn [snd] in Ht.
    eexists _, s'. split; [exact E|]. cbn [role msg_content sources timestamp].
    do 4 (split; [reflexivity|]).
    split; [|split; [|split; [|split; [|split]]]]; try done.
    + eexists. rewrite Hconv, lookup_insert_eq. split; [reflexivity|].
      cbn [messages updated_at id title created_at].
      do 5 (split; [reflexivity|]). split; [reflexivity|]. done.
    + intros other Hne. rewrite Hconv. by apply lookup_insert_ne.
    + rewrite Hconv, dom_insert_L.
      apply subseteq_union_1_L, singleton_subseteq_l, elem_of_dom. eauto.
  - destruct (conversations s !! cid) as [c|] eqn:Hc.
    + right.
      destruct (add_message_known cid r t srcs s c Hc)
        as (s' & E & _ & _ & Hconv).
      rewrite E. cbn [fst snd]. eexists _, c, _.
      split; [reflexivity|]. split; [reflexivity|].
      rewrite Hconv, lookup_insert_eq. split; [reflexivity|]. done.
    + left. by rewrite (add_message_unknown _ _ _ _ _ Hc).
Qed.

End StoreFacts.

(** ** Facts about the chat loop *)

Module CliFacts.
Import ConversationManager Cli ChatSpec PyStrFacts StoreFacts.

Section Printing.
Context (console : Output → option MarkupFault).

Lemma prints_fault o : prints console o = true ↔ fault console o = None.
Proof. unfold prints. by destruct (fault console o). Qed.

Lemma shown_prefix_all outs :
  first_fault console outs = None → shown_prefix console outs = outs.
Proof.
  induction outs as [|o outs IH]; [done|]. simpl. unfold prints.
  destruct (fault console o); [done|]. intros H. by rewrite IH.
Qed.

Lemma shown_prefix_split outs :
  ∃ rest, outs = shown_prefix console outs ++ rest.
Proof.
  induction outs as [|o outs [rest IH]]; [by exists []|]. simpl.
  destruct (prints console o).
  - exists rest. simpl. by f_equal.
  - by eexists.
Qed.

Lemma shown_prefix_app a b :
  shown_prefix console (a ++ b)
  = match first_fault console a with
    | None => a ++ shown_prefix console b
    | Some _ => shown_prefix console a
    end.
Proof.
  induction a as [|o a IH]; [done|]. simpl. unfold prints.
  destruct (fault console o); [done|]. rewrite IH.
  by destruct (first_fault console a).
Qed.

Lemma first_fault_app a b :
  first_fault console (a ++ b)
  = match first_fault console a with
    | None => first_fault console b
    | Some f => Some f
    end.
Proof.
  induction a as [|o a IH]; [done|]. simpl.
  by destruct (fault console o).
Qed.

Lemma say_says o st : say console o st = says console [o] st.
Proof.
  unfold say, says, emit, raise. simpl. unfold prints.
  by destruct (fault console o).
Qed.

(** Printing, then going on: the rest runs only when all was shown. *)
Lemma bind_says {B} (m : Chat unit) (k : unit → Chat B) a st :
  m st = says console a st →
  bind m k st =
  match first_fault console a with
  | None => ((k tt st).1.1, (k tt st).1.2, (Print <$> a) ++ (k tt st).2)
  | Some f => (Raised (MarkupError f), st, Print <$> shown_prefix console a)
  end.
Proof.
  intros H. unfold bind. rewrite H. unfold says.
  destruct (first_fault console a) eqn:E; [done|].
  rewrite (shown_prefix_all a E). by destruct (k tt st) as [[r st'] ev].
Qed.

Lemma bind_says_says (m k : Chat unit) a b st :
  (∀ st', m st' = says console a st') →
  (∀ st', k st' = says console b st') →
  bind m (λ _, k) st = says console (a ++ b) st.
Proof.
  intros Hm Hk. rewrite (bind_says m _ a st (Hm st)), Hk. unfold says.
  rewrite first_fault_app, shown_prefix_app. cbn [fst snd].
  destruct (first_fault console a); [done|]. by rewrite fmap_app.
Qed.

Lemma bind_says_ret {B} (m : Chat unit) (b : B) a st :
  m st = says console a st →
  bind m (λ _, ret b) st
  = (match first_fault console a with
     | None => Returned b
     | Some f => Raised (MarkupError f)
     end,
     st, Print <$> shown_prefix console a).
Proof.
  intros Hm. rewrite (bind_says m _ a st Hm). unfold ret. cbn [fst snd].
  destruct (first_fault console a) eqn:E; [done|].
  by rewrite app_nil_r, (shown_prefix_all a E).
Qed.

Lemma for_each_says {A} (body : A → Chat unit) (f : A → list Output) l st :
  (∀ x st', body x st' = says console (f x) st') →
  for_each l body st = says console (concat (f <$> l)) st.
Proof.
  intros Hb. revert st. induction l as [|x l IH]; intros st; [done|].
  cbn [for_each fmap list_fmap concat].
  apply bind_says_says; [apply Hb|apply IH].
Qed.

Lemma concat_singletons {A B} (g : A → B) (l : list A) :
  concat ((λ x, [g x]) <$> l) = g <$> l.
Proof.
  induction l as [|x l IH]; [done|].
  rewrite !fmap_cons. cbn [concat app]. by rewrite IH.
Qed.

Lemma show_sources_run srcs st :
  show_sources console srcs st = says console (source_outputs srcs) st.
Proof.
  destruct srcs as [|r srcs]; [done|].
  unfold show_sources, source_outputs.
  set (l := enumerate1 (take 3 (r :: srcs))).
  apply (bind_says_says _ _ [SourcesHeader]); [apply say_says|].
  intros st'.
  rewrite <- (concat_singletons
                (λ '(i, src), SourceLine i (source src) (score src)) l).
  apply for_each_says. intros [i src] st''. apply say_says.
Qed.

Lemma show_conversation_history_run cid st :
  show_conversation_history console cid st
  = says console
      (match conversations (manager st) !! cid with
       | Some c => history_outputs c
       | None => [NoHistory]
       end) st.
Proof.
  destruct st as [s cur].
  unfold show_conversation_history, bind at 1, with_manager, get_conversation.
  cbn [manager current_id].
  destruct (conversations s !! cid) as [c|]; [|done].
  unfold history_outputs.
  destruct (messages c) as [|m ms]; [done|].
  generalize (m :: ms). intros l.
  match goal with
  | |- (let (_, _) := ?x in _) = _ =>
      assert (E : x = says console
                        (HistoryTitle (title c)
                         :: concat ((λ msg, [HistoryRole (role msg);
                                             HistoryContent
                                               (preview (msg_content msg));
                                             BlankLine]) <$> l))
                        {| manager := s; current_id := cur |})
  end.
  { apply (bind_says_says _ _ [HistoryTitle (title c)]); [apply say_says|].
    intros st'. apply for_each_says. intros msg st''.
    apply (bind_says_says _ _ [HistoryRole (role msg)]); [apply say_says|].
    intros st3.
    apply (bind_says_says _ _ [HistoryContent (preview (msg_content msg))]
             [BlankLine]); intros; apply say_says. }
  rewrite E. unfold says. by destruct (first_fault _ _).
Qed.

Lemma calls_prints outs : calls (Print <$> outs) = [].
Proof. induction outs as [|o outs IH]; [done|]. exact IH. Qed.

Lemma calls_app ev ev' : calls (ev ++ ev') = calls ev ++ calls ev'.
Proof. apply filter_app. Qed.

Lemma calls_cons_call c ev : is_call c = true → calls (c :: ev) = c :: calls ev.
Proof. intros H. unfold calls. by rewrite filter_cons_True. Qed.

Lemma shown_sources_app ev ev' :
  shown_sources (ev ++ ev') = shown_sources ev ++ shown_sources ev'.
Proof. apply omap_app. Qed.

Lemma shown_sources_cons_call c ev :
  is_call c = true → shown_sources (c :: ev) = shown_sources ev.
Proof. by destruct c. Qed.

(** What is shown of a sequence of outputs holds no more reference lines
    than the sequence. *)
Lemma shown_sources_prefix outs :
  shown_sources (Print <$> shown_prefix console outs)
  `prefix_of` shown_sources (Print <$> outs).
Proof.
  destruct (shown_prefix_split outs) as [rest E].
  rewrite E at 2. rewrite fmap_app, shown_sources_app. by apply prefix_app_r.
Qed.

Lemma history_outputs_no_sources c :
  shown_sources (Print <$> history_outputs c) = [].
Proof.
  unfold history_outputs. destruct (messages c) as [|m ms]; [done|].
  generalize (m :: ms). intros l. rewrite fmap_cons.
  change (shown_sources (Print (HistoryTitle (title c)) :: ?x))
    with (shown_sources x).
  induction l as [|x l IH]; [done|]. exact IH.
Qed.

Lemma handle_prints e : ∃ outs, (handle console e).2 = Print <$> outs
                                ∧ shown_sources (Print <$> outs) = [].
Proof.
  unfold handle.
  destruct e; try (by exists []); try (by exists [Goodbye]);
    cbn [is_Exception];
    (destruct (fault console _); [by exists []|by eexists [_]]).
Qed.

Lemma handle_calls e : calls (handle console e).2 = [].
Proof. destruct (handle_prints e) as (outs & -> & _). apply calls_prints. Qed.

Lemma handle_shown_sources e : shown_sources (handle console e).2 = [].
Proof. by destruct (handle_prints e) as (outs & -> & ?). Qed.

(** The reference lines shown for an answer: those of the first three
    sources, up to the first the console does not render. *)
Lemma shown_sources_answer a srcs :
  shown_sources (Print <$> shown_prefix console (answer_outputs a srcs))
  = rendered_lines console (reference_lines srcs).
Proof.
  unfold answer_outputs, reference_lines, source_outputs.
  cbn [shown_prefix prints fault free_text fmap list_fmap].
  change (shown_sources (Print CoachHeader :: Print (Answer a) :: ?x))
    with (shown_sources x).
  destruct srcs as [|r srcs]; [done|].
  generalize (enumerate1 (take 3 (r :: srcs))). intros l.
  cbn [app shown_prefix prints fault free_text fmap list_fmap].
  change (shown_sources (Print SourcesHeader :: ?x)) with (shown_sources x).
  induction l as [|[i src] l IH]; [done|].
  rewrite !fmap_cons. cbn [app shown_prefix rendered_lines].
  change (prints console (SourceLine i (source src) (score src)))
    with (match console (SourceLine i (source src) (score src)) with
          | None => true
          | Some _ => false
          end).
  destruct (console (SourceLine i (source src) (score src))); [done|].
  rewrite fmap_cons.
  change (shown_sources (Print (SourceLine ?i ?n ?q) :: ?x))
    with ((i, n, q) :: shown_sources x).
  by rewrite IH.
Qed.

Lemma rendered_lines_prefix lines :
  rendered_lines console lines `prefix_of` lines.
Proof.
  induction lines as [|[[i n] r] lines IH]; [done|]. simpl.
  destruct (console (SourceLine i n r)); [apply prefix_nil|].
  by apply prefix_cons.
Qed.


Lemma history_outputs_no_error c e : ErrorLine e ∉ history_outputs c.
Proof.
  intros Ho. unfold history_outputs in Ho.
  destruct (messages c) as [|m ms]; [by apply list_elem_of_singleton in Ho|].
  apply elem_of_cons in Ho as [?|Ho]; [done|].
  revert Ho. generalize (m :: ms). intros l.
  induction l as [|x l IH]; [by intros ?%elem_of_nil|].
  rewrite fmap_cons. cbn [concat app]. rewrite !elem_of_cons.
  intros [?|[?|[?|?]]]; try done; by apply IH.
Qed.

Lemma answer_outputs_no_error a srcs e : ErrorLine e ∉ answer_outputs a srcs.
Proof.
  intros Ho. unfold answer_outputs, source_outputs in Ho.
  rewrite !elem_of_cons, elem_of_app in Ho.
  destruct Ho as [?|[?|[Ho|Ho]]]; try done.
  - destruct srcs; [by apply elem_of_nil in Ho|].
    apply elem_of_cons in Ho as [?|Ho]; [done|].
    by apply list_elem_of_fmap in Ho as ([i src] & ? & _).
  - by apply list_elem_of_singleton in Ho.
Qed.

(** A fault met while printing outputs that are no error lines is one the
    console has on one of them. *)
Lemma first_fault_console outs f :
  first_fault console outs = Some f →
  (∀ e, ErrorLine e ∉ outs) →
  ∃ o, o ∈ outs ∧ console o = Some f.
Proof.
  induction outs as [|o outs IH]; [done|]. simpl.
  intros H Hn.
  destruct (fault console o) as [f'|] eqn:E.
  - injection H as ->. exists o. split; [by left|].
    unfold fault in E.
    destruct o as [| | | | | | | | | | | | | | | | | | |e];
      try done; try (by destruct (free_text _)).
    exfalso. apply (Hn e). by left.
  - destruct (IH H) as (o' & Ho' & Hf).
    + intros e He. apply (Hn e). by right.
    + exists o'. split; [by right|done].
Qed.

(** With a console that renders everything, outputs that are no error
    lines are all shown. *)
Lemma first_fault_none outs :
  (∀ o, console o = None) → (∀ e, ErrorLine e ∉ outs) →
  first_fault console outs = None.
Proof.
  intros Hall Hn. destruct (first_fault console outs) as [f|] eqn:E; [|done].
  destruct (first_fault_console outs f E Hn) as (o & _ & Ho).
  by rewrite Hall in Ho.
Qed.

End Printing.


Lemma reference_lines_length srcs : length (reference_lines srcs) ≤ 3.
Proof.
  unfold reference_lines, enumerate1.
  rewrite length_fmap, length_zip_with, length_seq, length_take. lia.
Qed.


Lemma is_new_not_command ui :
  SessionSpec.is_new ui = true →
  SessionSpec.is_quit ui = false
  ∧ lower ui ≠ lit "help" ∧ lower ui ≠ lit "history"
  ∧ is_question ui = false.
Proof.
  unfold SessionSpec.is_new. change (lit "new ") with ([110; 101; 119; 32]%N).
  intros H. pose proof H as H'.
  apply startswith_cons in H' as [s' Hs].
  unfold SessionSpec.is_quit, is_question.
  change (lit "new ") with ([110; 101; 119; 32]%N). rewrite H, Hs.
  split; [|split; [|split]].
  - apply bool_decide_eq_false. rewrite !elem_of_cons, elem_of_nil.
    intros [E|[E|[E|[]]]]; compute in E; discriminate E.
  - intros E. compute in E. discriminate E.
  - intros E. compute in E. discriminate E.
  - by rewrite !andb_false_r, ?andb_false_l.
Qed.

Lemma is_quit_not_question ui :
  SessionSpec.is_quit ui = true → is_question ui = false.
Proof. unfold SessionSpec.is_quit, is_question. by intros ->. Qed.

Lemma question_is_no_quit ui :
  is_question ui = true → SessionSpec.is_quit ui = false.
Proof.
  intros Hq. destruct (SessionSpec.is_quit ui) eqn:E; [|done].
  apply is_quit_not_question in E. congruence.
Qed.

Lemma reaches_generation_question ui st :
  reaches_generation st ui = true → is_question ui = true.
Proof. unfold reaches_generation. by intros [? _]%andb_true_iff. Qed.

Lemma reaches_generation_intro ui st cid conv :
  current_id st = Some cid →
  conversations (manager st) !! cid = Some conv →
  is_question ui = true →
  reaches_generation st ui = true.
Proof.
  intros Hcur Hconv Hq. unfold reaches_generation.
  rewrite Hq, Hcur. simpl. apply bool_decide_eq_true. eauto.
Qed.

Lemma not_reaching st ui :
  is_question ui = true →
  reaches_generation st ui = false →
  match current_id st with
  | Some cid => conversations (manager st) !! cid = None
  | None => True
  end.
Proof.
  unfold reaches_generation. intros -> Hr. simpl in Hr.
  destruct (current_id st) as [cid|]; [|done].
  apply bool_decide_eq_false in Hr.
  destruct (conversations (manager st) !! cid); [|done].
  exfalso. apply Hr. eauto.
Qed.

Section Turn.
Context (console : Output → option MarkupFault).
Context (oc : OllamaClient) (rs : RagService) (no_rag : bool).

Lemma gateway_call_is_call ui h : is_call (gateway_call rs no_rag ui h) = true.
Proof. unfold gateway_call. by destruct no_rag. Qed.

Lemma handle_break e :
  (handle console e).1 = Break ↔ e = KeyboardInterrupt.
Proof.
  unfold handle. destruct e; cbn [is_Exception]; try done;
    by destruct (fault console _).
Qed.

(** The handlers let an exception out of the loop in three cases: it is no
    [Exception]; it is a [MarkupError] for a closing tag, whose message
    cannot be printed; or the console fails on its message. *)
Lemma handle_abort e e' :
  (handle console e).1 = Abort e'
  ↔ (is_Exception e = false ∧ e ≠ KeyboardInterrupt ∧ e' = e)
    ∨ (is_Exception e = true
       ∧ ∃ f, fault console (ErrorLine e) = Some f ∧ e' = MarkupError f).
Proof.
  unfold handle. destruct e; cbn [is_Exception];
    try (split; [by intros [= <-]; left|by intros [(_ & _ & ->)|[? _]]]);
    try (split; [done|by intros [(_ & ? & _)|[? _]]]);
    try (destruct (fault console _) as [f|] eqn:E; cbn [fst];
         (split;
          [ intros H; try done; injection H as <-; right; eauto
          | intros [[? _]|(_ & f' & Hf & ->)]; congruence ])).
Qed.

Lemma after_printing_calls outs : calls (after_printing console outs).2 = [].
Proof.
  unfold after_printing. destruct (first_fault console outs); cbn [snd].
  - by rewrite calls_app, calls_prints, handle_calls.
  - apply calls_prints.
Qed.

Lemma after_printing_sources outs :
  shown_sources (after_printing console outs).2
  = shown_sources (Print <$> shown_prefix console outs).
Proof.
  unfold after_printing. destruct (first_fault console outs); cbn [snd];
    [|done].
  by rewrite shown_sources_app, handle_shown_sources, app_nil_r.
Qed.

Lemma after_printing_control outs :
  (after_printing console outs).1
  = match first_fault console outs with
    | Some ClosingTag => Abort (MarkupError ClosingTag)
    | _ => Continue
    end.
Proof.
  unfold after_printing. by destruct (first_fault console outs) as [[]|].
Qed.

Lemma after_printing_all outs :
  first_fault console outs = None →
  after_printing console outs = (Continue, Print <$> outs).
Proof.
  intros H. unfold after_printing. by rewrite H, (shown_prefix_all _ _ H).
Qed.

(** A body that prints and then goes on, under the handlers of the
    loop. *)
Lemma turn_printing (outs : list Output) (ev : list Event)
    (st' : ChatState) (r : Outcome Control * ChatState * list Event) :
  r = (match first_fault console outs with
       | None => Returned Continue
       | Some f => Raised (MarkupError f)
       end, st', ev ++ (Print <$> shown_prefix console outs)) →
  match r with
  | (Returned c, st'', ev') => (c, st'', ev')
  | (Raised e, st'', ev') =>
      ((handle console e).1, st'', ev' ++ (handle console e).2)
  end
  = ((after_printing console outs).1, st',
     ev ++ (after_printing console outs).2).
Proof.
  intros ->. unfold after_printing.
  destruct (first_fault console outs); cbn [fst snd]; [|done].
  by rewrite app_assoc.
Qed.

Lemma answer_for_run ui h st :
  answer_for oc rs no_rag ui h st =
  (gateway_result oc rs no_rag ui (removelast h), st,
   [gateway_call rs no_rag ui (removelast h)]).
Proof.
  unfold answer_for, gateway_result, gateway_call.
  destruct no_rag; unfold bind, emit, of_outcome, ret; simpl.
  - by destruct (generate oc ui _).
  - by destruct (generate_answer rs ui _).
Qed.

(** Lines 164 to 174, the answer shown. *)
Lemma answer_shown a srcs st :
  (say console CoachHeader ;; say console (Answer a) ;;
   show_sources console srcs ;; say console BlankLine ;; ret Continue) st
  = (match first_fault console (answer_outputs a srcs) with
     | None => Returned Continue
     | Some f => Raised (MarkupError f)
     end,
     st, Print <$> shown_prefix console (answer_outputs a srcs)).
Proof.
  assert (E : ∀ st',
            (say console CoachHeader ;; say console (Answer a) ;;
             show_sources console srcs ;; say console BlankLine) st'
            = says console (answer_outputs a srcs) st').
  { intros st'. unfold answer_outputs.
    apply (bind_says_says console _ _ [CoachHeader]); [apply say_says|].
    intros st1.
    apply (bind_says_says console _ _ [Answer a]); [apply say_says|].
    intros st2.
    apply (bind_says_says console _ _ (source_outputs srcs) [BlankLine]).
    - apply show_sources_run.
    - apply say_says. }
  rewrite <- (bind_says_ret console _ Continue (answer_outputs a srcs) st
                (E st)).
  unfold bind.
  destruct (say console CoachHeader st) as [[[[]|e] st1] ev1]; [|done].
  destruct (say console (Answer a) st1) as [[[[]|e] st2] ev2]; [|done].
  destruct (show_sources console srcs st2) as [[[[]|e] st3] ev3]; [|done].
  destruct (say console BlankLine st3) as [[[[]|e] st4] ev4]; [|done].
  cbn [ret]. by rewrite !app_nil_r, !app_assoc.
Qed.

(** A question put while [current_id] is bound to a conversation of the
    store: the user message is appended, the gateway is asked with the
    history as it was before, and only when it answers are the assistant
    message appended and then the answer shown, as far as the console
    renders it. *)
Lemma question_run ui st cid conv :
  current_id st = Some cid →
  conversations (manager st) !! cid = Some conv →
  let s1 := (add_message cid USER ui None (manager st)).2 in
  question console oc rs no_rag ui st =
  match gateway_result oc rs no_rag ui (messages conv) with
  | Raised e =>
      (Raised e, {| manager := s1; current_id := Some cid |},
       [gateway_call rs no_rag ui (messages conv)])
  | Returned (a, srcs) =>
      (match first_fault console (answer_outputs a srcs) with
       | None => Returned Continue
       | Some f => Raised (MarkupError f)
       end,
       {| manager := (add_message cid ASSISTANT a (Some srcs) s1).2;
          current_id := Some cid |},
       [gateway_call rs no_rag ui (messages conv)]
       ++ (Print <$> shown_prefix console (answer_outputs a srcs)))
  end.
Proof.
  destruct st as [s cur]. simpl. intros -> Hc.
  destruct (add_message_known cid USER ui None s conv Hc)
    as (s1 & E1 & Hclock & Hissued & Hconv).
  rewrite E1. simpl.
  unfold question.
  unfold bind at 1, read_current_id at 1. cbn [current_id].
  unfold bind at 1, with_manager_raising at 1. cbn [manager current_id].
  rewrite E1.
  unfold bind at 1, read_current_id at 1. cbn [current_id].
  unfold bind at 1, with_manager at 1. cbn [manager current_id].
  unfold bind at 1. rewrite answer_for_run.
  assert (Hh : get_conversation_history cid s1 =
               messages conv ++ [user_message ui (clock s)]).
  { unfold get_conversation_history. by rewrite Hconv, lookup_insert_eq. }
  rewrite Hh, removelast_last.
  destruct (gateway_result oc rs no_rag ui (messages conv))
    as [[a srcs]|e]; [|done].
  unfold bind at 1, read_current_id at 1. cbn [current_id].
  unfold bind at 1, with_manager_raising at 1. cbn [manager current_id].
  assert (Hc1 : is_Some (conversations s1 !! cid)).
  { rewrite Hconv, lookup_insert_eq. eauto. }
  destruct Hc1 as [c1 Hc1].
  destruct (add_message_known cid ASSISTANT a (Some srcs) s1 c1 Hc1)
    as (s2 & E2 & _).
  rewrite E2. cbn [snd]. rewrite answer_shown. done.
Qed.

(** A question put while [current_id] is unbound, or bound to an id the
    store does not hold, raises before anything is done. *)
Lemma question_stuck ui st :
  match current_id st with
  | Some cid => conversations (manager st) !! cid = None
  | None => True
  end →
  ∃ e, question console oc rs no_rag ui st = (Raised e, st, [])
       ∧ (e = NotFoundError ∨ e = UnboundLocalError "current_id").
Proof.
  destruct st as [s [cid|]]; simpl.
  - intros H. exists NotFoundError. split; [|by left].
    unfold question, bind, read_current_id, with_manager_raising. simpl.
    by rewrite (add_message_unknown _ _ _ _ _ H).
  - intros _. exists (UnboundLocalError "current_id"). split; [done|by right].
Qed.

Lemma turn_body_blank ui :
  strip ui = [] → turn_body console oc rs no_rag ui = ret Continue.
Proof.
  intros Hstrip. pose proof (strip_nil_blank _ Hstrip) as Hb.
  unfold turn_body.
  rewrite bool_decide_eq_false_2.
  2:{ rewrite !elem_of_cons, elem_of_nil.
      intros [H|[H|[H|[]]]]; revert H; by apply blank_not_literal. }
  rewrite bool_decide_eq_false_2 by (by apply blank_not_literal).
  rewrite bool_decide_eq_false_2 by (by apply blank_not_literal).
  change (lit "new ") with ([110; 101; 119; 32]%N).
  rewrite blank_not_prefixed by done.
  by rewrite bool_decide_eq_true_2.
Qed.

Lemma turn_body_question ui :
  is_question ui = true →
  turn_body console oc rs no_rag ui = question console oc rs no_rag ui.
Proof.
  unfold is_question, turn_body. intros H.
  repeat (apply andb_true_iff in H as [H ?]).
  repeat match goal with
  | H : negb ?b = true |- _ => apply negb_true_iff in H; rewrite H; clear H
  end.
  reflexivity.
Qed.

Lemma turn_quit ui st :
  SessionSpec.is_quit ui = true →
  turn console oc rs no_rag ui st = (Break, st, [Print Goodbye]).
Proof.
  unfold SessionSpec.is_quit, turn, turn_body. by intros ->.
Qed.

(** A [new] command creates the conversation and binds [current_id] to
    it, and then prints its title. *)
Lemma turn_new ui st :
  SessionSpec.is_new ui = true →
  let created :=
    create_conversation (or_None (strip (drop 4 ui))) (manager st) in
  turn console oc rs no_rag ui st
  = ((after_printing console [Created (title created.1)]).1,
     {| manager := created.2; current_id := Some (id created.1) |},
     (after_printing console [Created (title created.1)]).2).
Proof.
  intros Hnew.
  destruct (is_new_not_command ui Hnew) as (Hq & Hh & Hhist & _).
  unfold SessionSpec.is_quit in Hq. unfold SessionSpec.is_new in Hnew.
  unfold turn, turn_body. rewrite Hq.
  rewrite !bool_decide_eq_false_2 by done. rewrite Hnew.
  cbv zeta. apply (turn_printing [Created _] []).
  unfold bind at 1, with_manager at 1.
  destruct (create_conversation _ _) as [conversation s'].
  unfold bind at 1, assign_current_id at 1. cbn [manager current_id fst snd].
  rewrite (bind_says_ret console _ Continue [Created (title conversation)] _
             (say_says console _ _)).
  by rewrite !app_nil_l.
Qed.

(** What a turn that reaches the gateway comes to, under the two handlers
    of the loop. *)
Lemma turn_question ui st :
  reaches_generation st ui = true →
  ∃ cid conv,
    current_id st = Some cid
    ∧ conversations (manager st) !! cid = Some conv
    ∧ let s1 := (add_message cid USER ui None (manager st)).2 in
      turn console oc rs no_rag ui st =
      match gateway_result oc rs no_rag ui (messages conv) with
      | Raised e =>
          ((handle console e).1,
           {| manager := s1; current_id := Some cid |},
           [gateway_call rs no_rag ui (messages conv)]
           ++ (handle console e).2)
      | Returned (a, srcs) =>
          ((after_printing console (answer_outputs a srcs)).1,
           {| manager := (add_message cid ASSISTANT a (Some srcs) s1).2;
              current_id := Some cid |},
           [gateway_call rs no_rag ui (messages conv)]
           ++ (after_printing console (answer_outputs a srcs)).2)
      end.
Proof.
  unfold reaches_generation. intros H.
  apply andb_true_iff in H as [Hq H].
  destruct (current_id st) as [cid|] eqn:Hcur; [|done].
  apply bool_decide_eq_true in H as [conv Hconv].
  exists cid, conv. split; [done|]. split; [done|].
  unfold turn. rewrite turn_body_question by done.
  rewrite (question_run ui st cid conv Hcur Hconv).
  destruct (gateway_result oc rs no_rag ui (messages conv)) as [[a srcs]|e];
    [|done].
  exact (turn_printing (answer_outputs a srcs) _ _ _ eq_refl).
Qed.

(** The [history] command: the history of the conversation [current_id]
    is bound to, as far as the console renders it. *)
Lemma turn_history ui st :
  SessionSpec.is_history ui = true →
  turn console oc rs no_rag ui st
  = match current_id st with
    | None =>
        (Continue, st, [Print (ErrorLine (UnboundLocalError "current_id"))])
    | Some cid =>
        let outs := match conversations (manager st) !! cid with
                    | Some c => history_outputs c
                    | None => [NoHistory]
                    end in
        ((after_printing console outs).1, st, (after_printing console outs).2)
    end.
Proof.
  unfold SessionSpec.is_history. intros Hh%bool_decide_eq_true.
  unfold turn, turn_body. rewrite Hh.
  rewrite bool_decide_eq_false_2
    by (rewrite !elem_of_cons, elem_of_nil;
        intros [E|[E|[E|[]]]]; compute in E; discriminate E).
  rewrite bool_decide_eq_false_2 by (intros E; compute in E; discriminate E).
  rewrite bool_decide_eq_true_2 by done.
  unfold bind at 1, read_current_id.
  destruct (current_id st) as [cid|] eqn:Hcur; [|done].
  cbv zeta. apply (turn_printing _ []).
  rewrite (bind_says_ret console _ Continue _ st
             (show_conversation_history_run console cid st)).
  by rewrite !app_nil_l.
Qed.

(** A turn that is no [new] command and does not reach the gateway leaves
    the state alone, asks nothing and shows no reference. It leaves the
    loop by [break] exactly when the input is one of the quit words, and
    by an exception only when the console fails. *)
Lemma turn_quiet ui st :
  SessionSpec.is_new ui = false →
  reaches_generation st ui = false →
  (turn console oc rs no_rag ui st).1.2 = st
  ∧ calls (turn console oc rs no_rag ui st).2 = []
  ∧ shown_sources (turn console oc rs no_rag ui st).2 = []
  ∧ ((turn console oc rs no_rag ui st).1.1 = Break
     ↔ SessionSpec.is_quit ui = true)
  ∧ (∀ e, (turn console oc rs no_rag ui st).1.1 = Abort e →
          ∃ f o, e = MarkupError f ∧ console o = Some f).
Proof.
  intros Hnew Hr.
  destruct (SessionSpec.is_quit ui) eqn:Hquit.
  { rewrite (turn_quit ui st Hquit). by repeat split. }
  destruct (is_question ui) eqn:Hq.
  - unfold turn. rewrite turn_body_question by done.
    destruct (question_stuck ui st (not_reaching st ui Hq Hr))
      as (e & -> & He).
    cbn [fst snd]. rewrite app_nil_l, handle_calls, handle_shown_sources.
    split; [done|]. split; [done|]. split; [done|].
    split.
    + rewrite handle_break. by destruct He as [-> | ->].
    + intros e'. rewrite handle_abort.
      intros [(Hne & _)|(_ & f & Hf & ->)].
      * by destruct He as [-> | ->].
      * exists f. destruct He as [-> | ->]; [|done].
        exists (ErrorLine NotFoundError). by split.
  - unfold SessionSpec.is_quit in Hquit. apply bool_decide_eq_false in Hquit.
    unfold SessionSpec.is_new in Hnew.
    assert (Hcase : lower ui = lit "help" ∨ lower ui = lit "history"
                    ∨ strip ui = []).
    { unfold is_question in Hq.
      rewrite (bool_decide_eq_false_2 _ Hquit), Hnew in Hq.
      destruct (decide (lower ui = lit "help")); [by left|].
      destruct (decide (lower ui = lit "history")); [by right; left|].
      destruct (decide (strip ui = [])); [by right; right|].
      rewrite !bool_decide_eq_false_2 in Hq by done. done. }
    destruct (decide (lower ui = lit "history")) as [Hhist|Hhist].
    { rewrite (turn_history ui st) by (by apply bool_decide_eq_true).
      destruct (current_id st) as [cid|] eqn:Hcur; [|by repeat split].
      cbv zeta.
      set (outs := match conversations (manager st) !! cid with
                   | Some c => history_outputs c
                   | None => [NoHistory]
                   end).
      assert (Hn : ∀ e, ErrorLine e ∉ outs).
      { intros e. subst outs. destruct (conversations (manager st) !! cid).
        - apply history_outputs_no_error.
        - by intros ?%list_elem_of_singleton. }
      cbn [fst snd].
      rewrite after_printing_calls, after_printing_sources,
        after_printing_control.
      split; [done|]. split; [done|]. split.
      { apply prefix_nil_inv.
        etrans; [apply shown_sources_prefix|]. subst outs.
        destruct (conversations (manager st) !! cid);
          [by rewrite history_outputs_no_sources|done]. }
      destruct (first_fault console outs) as [[]|] eqn:Hall.
      - split; [done|]. intros e [= <-].
        destruct (first_fault_console console outs _ Hall Hn) as (o & _ & Ho).
        eauto.
      - split; [done|]. by intros e [=].
      - split; [done|]. by intros e [=]. }
    unfold turn, turn_body. rewrite (bool_decide_eq_false_2 _ Hquit).
    case_bool_decide; [by repeat split|].
    rewrite bool_decide_eq_false_2 by done. rewrite Hnew.
    case_bool_decide; [by repeat split|].
    by destruct Hcase as [?|[?|?]].
Qed.

End Turn.
Section Claims.
Context (console : Output → option MarkupFault).
Context (oc : OllamaClient) (rs : RagService).

(** A turn that does not reach the gateway asks nothing of it. *)
Lemma turn_calls_not_reaching no_rag ui st :
  reaches_generation st ui = false →
  calls (turn console oc rs no_rag ui st).2 = [].
Proof.
  intros Hr. destruct (SessionSpec.is_new ui) eqn:Hnew.
  - rewrite (turn_new console oc rs no_rag ui st Hnew). cbn [snd].
    apply after_printing_calls.
  - by destruct (turn_quiet console oc rs no_rag ui st Hnew Hr) as (_ & ? & _).
Qed.

(** A turn that reaches the gateway asks it once. *)
Lemma turn_calls_reaching no_rag ui st cid conv :
  current_id st = Some cid →
  conversations (manager st) !! cid = Some conv →
  is_question ui = true →
  calls (turn console oc rs no_rag ui st).2
  = [gateway_call rs no_rag ui (messages conv)].
Proof.
  intros Hcur Hconv Hq.
  destruct (turn_question console oc rs no_rag ui st
              (reaches_generation_intro ui st cid conv Hcur Hconv Hq))
    as (cid' & conv' & Hcur' & Hconv' & Ht).
  assert (cid' = cid) as -> by congruence.
  assert (conv' = conv) as -> by congruence.
  cbv zeta in Ht. rewrite Ht. clear Ht.
  destruct (gateway_result oc rs no_rag ui (messages conv)) as [[a srcs]|e];
    cbn [snd app]; rewrite calls_cons_call by apply gateway_call_is_call.
  - by rewrite after_printing_calls.
  - by rewrite handle_calls.
Qed.

(** Claim C8. A turn whose input is empty or made of whitespace only
    continues the loop with the state (conversation store and current
    conversation) exactly as it was and with no event at all: nothing is
    appended, nothing is printed, and neither gateway is called. *)
Theorem blank_input_is_ignored (no_rag : bool) (ui : pystr) (st : ChatState) :
  blank ui → turn console oc rs no_rag ui st = (Continue, st, []).
Proof.
  intros Hb. unfold turn.
  by rewrite (turn_body_blank console oc rs no_rag ui (blank_strip_nil ui Hb)).
Qed.

(** Claim C1, as the code has it. In a turn that reaches the gateway
    (a question, put while the current conversation is one of the store):
    when generation raises, the history of the conversation is the history
    before the turn followed by the user message, and no assistant message;
    when generation returns an answer with its sources, the history is the
    history before the turn followed by the user message and then the
    assistant message carrying that answer and those sources. *)
Theorem chat_turn_records (no_rag : bool) (ui : pystr) (st : ChatState)
    (cid : pystr) (conv : Conversation) :
  current_id st = Some cid →
  conversations (manager st) !! cid = Some conv →
  is_question ui = true →
  let now := clock (manager st) in
  let after :=
    get_conversation_history cid
      (manager (turn console oc rs no_rag ui st).1.2) in
  match gateway_result oc rs no_rag ui (messages conv) with
  | Raised _ => after = messages conv ++ [user_message ui now]
  | Returned (a, srcs) =>
      after = messages conv
              ++ [user_message ui now; assistant_message a srcs (S now)]
  end.
Proof.
  intros Hcur Hconv Hq.
  destruct (turn_question console oc rs no_rag ui st
              (reaches_generation_intro ui st cid conv Hcur Hconv Hq))
    as (cid' & conv' & Hcur' & Hconv' & Ht).
  assert (cid' = cid) as -> by congruence.
  assert (conv' = conv) as -> by congruence.
  simpl in *. rewrite Ht. clear Ht.
  pose proof (history_after_append cid USER ui None (manager st) conv Hconv)
    as H1.
  destruct (gateway_result oc rs no_rag ui (messages conv)) as [[a srcs]|e];
    simpl; [|exact H1].
  destruct (add_message_known cid USER ui None (manager st) conv Hconv)
    as (s1 & E1 & Hclock & _ & Hc1).
  rewrite E1 in *. simpl in *.
  assert (Hk : ∃ c1, conversations s1 !! cid = Some c1
                     ∧ messages c1 = messages conv ++ [user_message ui (clock (manager st))]).
  { eexists. rewrite Hc1, lookup_insert_eq. split; reflexivity. }
  destruct Hk as (c1 & Hk & Hm).
  rewrite (history_after_append cid ASSISTANT a (Some srcs) s1 c1 Hk).
  rewrite Hm, Hclock, <- app_assoc. reflexivity.
Qed.

(** Claim C2. In no-RAG mode a turn never records a message with sources:
    every message found in the history of any conversation after the turn
    was there before the turn, or has the empty sequence as its sources. *)
Theorem no_rag_records_no_sources (ui : pystr) (st : ChatState)
    (cid : pystr) (m : Message) :
  m ∈ get_conversation_history cid
        (manager (turn console oc rs true ui st).1.2) →
  m ∈ get_conversation_history cid (manager st) ∨ sources m = [].
Proof.
  destruct (SessionSpec.is_new ui) eqn:Hnew.
  { rewrite (turn_new console oc rs true ui st Hnew). cbn [fst snd manager].
    unfold create_conversation, get_conversation_history. simpl.
    destruct (decide (cid = fresh (issued (manager st)))) as [->|Hne].
    + rewrite lookup_insert_eq. simpl. by intros ?%elem_of_nil.
    + rewrite lookup_insert_ne by done. by left. }
  destruct (reaches_generation st ui) eqn:Hr.
  2:{ destruct (turn_quiet console oc rs true ui st Hnew Hr) as (-> & _).
      by left. }
  destruct (turn_question console oc rs true ui st Hr)
    as (cid0 & conv & Hcur & Hconv & Ht).
  simpl in Ht. rewrite Ht. clear Ht.
  unfold gateway_result.
  pose proof (history_after_append cid0 USER ui None (manager st) conv Hconv)
    as H1.
  assert (H0 : get_conversation_history cid0 (manager st) = messages conv).
  { unfold get_conversation_history. by rewrite Hconv. }
  destruct (generate oc ui (FITNESS_COACH_SYSTEM_PROMPT rs)) as [a|e]; simpl.
  + destruct (decide (cid = cid0)) as [->|Hne].
    * destruct (add_message_known cid0 USER ui None (manager st) conv Hconv)
        as (s1 & E1 & _ & _ & Hc1).
      rewrite E1 in *. simpl in *.
      assert (Hk : is_Some (conversations s1 !! cid0)).
      { rewrite Hc1, lookup_insert_eq. eauto. }
      destruct Hk as (c1 & Hk).
      rewrite (history_after_append cid0 ASSISTANT a (Some []) s1 c1 Hk).
      assert (Hm : messages c1 = messages conv ++ [user_message ui (clock (manager st))]).
      { unfold get_conversation_history in H1. by rewrite Hk in H1. }
      rewrite Hm, H0.
      rewrite !elem_of_app, !list_elem_of_singleton.
      intros [[?| ->]| ->]; auto.
    * rewrite !history_other_after_append by done. by left.
  + destruct (decide (cid = cid0)) as [->|Hne].
    * rewrite H1, H0, elem_of_app, list_elem_of_singleton.
      intros [?| ->]; auto.
    * rewrite history_other_after_append by done. by left.
Qed.




End Claims.

End CliFacts.

(** ** The chat loop on sample runs *)

Module CliChecks.
Import ConversationManager Cli ChatSpec Samples CliFacts.

(** Until a [new] command has bound [current_id], a question ends in the
    handler of [Exception]: nothing is asked of the gateway and nothing is
    recorded, also in the conversation [chat] itself has just created. *)
Example question_before_new :
  chat renders_all ollama_up rag_up false None [squat_question] empty
  = (0%Z, (create_conversation None empty).2,
     [Print Banner; Print (ServiceStatus healthy); Print (CreatedShort []);
      Print Hint; Print (ErrorLine (UnboundLocalError "current_id"))]).
Proof. vm_compute. reflexivity. Qed.

Example after_new_state :
  current_id after_new = Some legs_id
  ∧ conversations (manager after_new) !! legs_id = Some legs
  ∧ clock (manager after_new) = 2.
Proof. vm_compute. auto. Qed.

(** Counterexample to claim C1 as stated. The user types [new legs] and
    then [hi] while the backend is down: [generate_answer] is called with
    the empty history and raises, the error is printed, and the history of
    the conversation nevertheless holds the user message [hi]. *)
Lemma failed_generation_keeps_user_message :
  let run :=
    chat renders_all ollama_down rag_down false None
      [lit "new legs"; lit "hi"] empty in
  run.2 = [Print Banner; Print (ServiceStatus healthy);
           Print (CreatedShort []); Print Hint; Print (Created (lit "legs"));
           CallGenerateAnswer (lit "hi") [];
           Print (ErrorLine GenerationError)]
  ∧ generate_answer rag_down (lit "hi") [] = Raised GenerationError
  ∧ get_conversation_history legs_id run.1.2 = [user_message (lit "hi") 2]
  ∧ get_conversation_history legs_id run.1.2 ≠ [].
Proof. vm_compute. repeat split; discriminate. Qed.

Lemma chat_turn_records_witness :
  get_conversation_history legs_id
    (manager (turn renders_all ollama_up rag_up false squat_question
                after_new).1.2)
  = [user_message squat_question 2;
     assistant_message (lit "Squat with a straight back.") four_passages 3].
Proof.
  assert (H1 : current_id after_new = Some legs_id)
    by (vm_compute; reflexivity).
  assert (H2 : conversations (manager after_new) !! legs_id = Some legs)
    by (vm_compute; reflexivity).
  assert (H3 : is_question squat_question = true)
    by (vm_compute; reflexivity).
  assert (H4 : clock (manager after_new) = 2) by (vm_compute; reflexivity).
  pose proof (chat_turn_records renders_all ollama_up rag_up false
                squat_question after_new legs_id legs H1 H2 H3) as H.
  cbv zeta in H. rewrite H4 in H. exact H.
Defined.

Lemma blank_input_is_ignored_witness :
  turn renders_all ollama_up rag_up false (lit "   ") after_one_question
  = (Continue, after_one_question, []).
Proof.
  apply (blank_input_is_ignored renders_all ollama_up rag_up false
           (lit "   ") after_one_question).
  unfold blank. repeat constructor.
Defined.

Lemma no_rag_records_no_sources_witness :
  let m := assistant_message (lit "Train three times a week.") [] 3 in
  m ∈ get_conversation_history legs_id
        (manager (turn renders_all ollama_up rag_up true squat_question
                    after_new).1.2)
  ∧ (m ∈ get_conversation_history legs_id (manager after_new)
     ∨ sources m = []).
Proof.
  intros m.
  assert (H : m ∈ get_conversation_history legs_id
                (manager (turn renders_all ollama_up rag_up true
                            squat_question after_new).1.2)).
  { vm_compute. apply elem_of_cons. right. apply elem_of_cons. by left. }
  split; [exact H|].
  exact (no_rag_records_no_sources renders_all ollama_up rag_up
           squat_question after_new legs_id m H).
Defined.



(** The three reference lines of an answer with four sources. *)
Example three_references_shown :
  shown_sources (turn rich_like ollama_up rag_up false squat_question
                   after_new).2
  = [(1, lit "squat.md", 9 # 10); (2, lit "diet.md", 3 # 4);
     (3, lit "sleep.md", 1 # 2)].
Proof. vm_compute. reflexivity. Qed.


(** The second question of a conversation is asked with the first question
    and its answer as history. *)
Example second_question_history :
  calls (turn renders_all ollama_up rag_up false (lit "and lunges?")
           after_one_question).2
  = [CallGenerateAnswer (lit "and lunges?")
       [user_message squat_question 2;
        assistant_message (lit "Squat with a straight back.")
          four_passages 3]].
Proof. vm_compute. reflexivity. Qed.

(** A title with a closing tag: the conversation is created, its title
    cannot be printed, nor can the message of the error, and the program
    ends with status 1 before the next line is read. *)
Example closing_tag_title_ends_chat :
  let run :=
    chat rich_like ollama_up rag_up false None
      [lit "new [/]"; squat_question] empty in
  run.1.1 = 1%Z
  ∧ run.2 = [Print Banner; Print (ServiceStatus healthy);
             Print (CreatedShort []); Print Hint]
  ∧ title <$> conversations run.1.2 !! legs_id = Some (lit "[/]").
Proof. vm_compute. auto. Qed.

(** A title with a handler tag whose parameters do not parse: the error
    is caught and printed, and the loop goes on. *)
Example handler_tag_title_goes_on :
  turn handler_console ollama_up rag_up false
    (lit "new [@click=f(]x[/@click]") at_start
  = (Continue,
     {| manager :=
          (create_conversation (Some (lit "[@click=f(]x[/@click]"))
             (manager at_start)).2;
        current_id := Some legs_id |},
     [Print (ErrorLine (MarkupError HandlerParameters))]).
Proof. vm_compute. reflexivity. Qed.

End CliChecks.

(** ** Facts about the retriever *)

Module RetrieverFacts.
Import Retriever.

Lemma Forall_insert_ranked (P : RetrievalResult → Prop) x l :
  P x → Forall P l → Forall P (insert_ranked x l).
Proof.
  intros Hx. induction 1 as [|y l Hy Hl IH]; simpl.
  - by constructor.
  - destruct (Qle_bool (score y) (score x)); repeat constructor; auto.
Qed.

Lemma insert_ranked_sorted x l :
  StronglySorted by_score_desc l →
  StronglySorted by_score_desc (insert_ranked x l).
Proof.
  induction 1 as [|y l Hl IH Hy]; simpl.
  - repeat constructor.
  - destruct (Qle_bool (score y) (score x)) eqn:E.
    + apply Qle_bool_iff in E.
      constructor; [by constructor|].
      constructor; [exact E|].
      eapply Forall_impl; [exact Hy|].
      intros z Hz. unfold by_score_desc in *. by eapply Qle_trans.
    + constructor; [exact IH|].
      apply Forall_insert_ranked; [|exact Hy].
      unfold by_score_desc. apply Qlt_le_weak, Qnot_le_lt.
      intros H. apply Qle_bool_iff in H. congruence.
Qed.

Lemma rank_sorted l : StronglySorted by_score_desc (rank l).
Proof.
  induction l as [|x l IH]; simpl; [constructor|].
  by apply insert_ranked_sorted.
Qed.

Lemma insert_ranked_length x l : length (insert_ranked x l) = S (length l).
Proof.
  induction l as [|y l IH]; simpl; [done|].
  destruct (Qle_bool (score y) (score x)); simpl; by rewrite ?IH.
Qed.

Lemma take_sorted {A} (R : A → A → Prop) n l :
  StronglySorted R l → StronglySorted R (take n l).
Proof.
  intros H. revert n. induction H as [|x l Hl IH Hx]; intros [|n]; simpl;
    try constructor; auto.
  by apply Forall_take.
Qed.

Section Retrieve.
Context (embed : pystr → Outcome (list Q)).
Context (similarity : list Q → list Q → Q).
Context (relevance_floor : option Q).

Lemma query_index_bounded index v top_k :
  (0 < top_k)%Z →
  (Z.of_nat (length (query_index similarity relevance_floor index v top_k))
   ≤ top_k)%Z.
Proof.
  intros H. unfold query_index. rewrite length_take. lia.
Qed.

Lemma query_index_sorted index v top_k :
  StronglySorted by_score_desc
    (query_index similarity relevance_floor index v top_k).
Proof. apply take_sorted, rank_sorted. Qed.

(** Claim C4. For every query and every positive [top_k]: when the
    embedding gateway answers, [retrieve] returns a sequence; whatever
    sequence it returns has at most [top_k] elements and is sorted by score
    in non-increasing order; and on an empty index it returns the empty
    sequence and raises nothing. *)
Theorem retrieve_bounded_sorted (index : list IndexEntry) (query : pystr)
    (top_k : Z) :
  (0 < top_k)%Z →
  (∀ v, embed query = Returned v →
        ∃ rs, retrieve embed similarity relevance_floor index query top_k
              = Returned rs)
  ∧ (∀ rs, retrieve embed similarity relevance_floor index query top_k
           = Returned rs →
           (Z.of_nat (length rs) ≤ top_k)%Z
           ∧ StronglySorted by_score_desc rs)
  ∧ (index = [] →
     retrieve embed similarity relevance_floor index query top_k
     = Returned []).
Proof.
  intros Hk. unfold retrieve. split; [|split].
  - intros v Hv. destruct index; [eauto|]. rewrite Hv. eauto.
  - intros rs. destruct index as [|e index].
    + intros [= <-]. split; [simpl; lia|constructor].
    + destruct (embed query) as [v|]; [|done].
      intros [= <-]. split.
      * by apply query_index_bounded.
      * apply query_index_sorted.
  - by intros ->.
Qed.

End Retrieve.

End RetrieverFacts.

(** ** Facts about the chunker *)

Module ChunkerFacts.
Import Chunker.

Section Split.
Context (boundary : pystr → option nat).
Context (max_chunk_size overlap : nat).
Hypothesis overlap_below_size : overlap < max_chunk_size.

Lemma cut_point_range rest :
  overlap < cut_point boundary max_chunk_size overlap rest
  ∧ cut_point boundary max_chunk_size overlap rest ≤ max_chunk_size.
Proof.
  unfold cut_point.
  destruct (boundary (take max_chunk_size rest)) as [p|]; [|lia].
  destruct ((overlap <? p) && (p <=? max_chunk_size)) eqn:E; [|lia].
  apply andb_true_iff in E as [E1 E2].
  apply Nat.ltb_lt in E1. apply Nat.leb_le in E2. lia.
Qed.

(** The chunks after the first, each without its leading overlap, are the
    text after the overlap. *)
Lemma split_from_tail fuel rest :
  length rest ≤ fuel →
  overlap ≤ length rest →
  concat (drop overlap <$> split_from boundary max_chunk_size overlap fuel rest)
  = drop overlap rest.
Proof.
  revert rest. induction fuel as [|fuel IH]; intros rest Hfuel Hlen.
  - destruct rest; [|simpl in Hfuel; lia].
    simpl. by rewrite drop_nil.
  - simpl. destruct (length rest <=? max_chunk_size) eqn:E.
    + simpl. by rewrite app_nil_r.
    + apply Nat.leb_gt in E.
      destruct (cut_point_range rest) as [Hlo Hhi].
      set (cut := cut_point boundary max_chunk_size overlap rest) in *.
      rewrite fmap_cons. simpl concat.
      rewrite IH by (rewrite length_drop; lia).
      rewrite drop_drop.
      replace (cut - overlap + overlap) with cut by lia.
      rewrite <- (take_drop cut rest) at 3.
      rewrite drop_app_le by (rewrite length_take; lia).
      reflexivity.
Qed.

Lemma split_from_lossless fuel rest :
  length rest ≤ fuel →
  match split_from boundary max_chunk_size overlap fuel rest with
  | [] => []
  | c :: cs => c ++ concat (drop overlap <$> cs)
  end = rest.
Proof.
  intros Hfuel. destruct fuel as [|fuel].
  - destruct rest; [done|simpl in Hfuel; lia].
  - simpl. destruct (length rest <=? max_chunk_size) eqn:E.
    + by rewrite app_nil_r.
    + apply Nat.leb_gt in E.
      destruct (cut_point_range rest) as [Hlo Hhi].
      set (cut := cut_point boundary max_chunk_size overlap rest) in *.
      rewrite split_from_tail by (rewrite length_drop; lia).
      rewrite drop_drop.
      replace (cut - overlap + overlap) with cut by lia.
      apply take_drop.
Qed.

(** Every chunk is non-empty and within the size budget. *)
Lemma split_from_sizes fuel rest :
  length rest ≤ fuel → rest ≠ [] →
  Forall (λ c, 0 < length c ∧ length c ≤ max_chunk_size)
    (split_from boundary max_chunk_size overlap fuel rest).
Proof.
  revert rest. induction fuel as [|fuel IH]; intros rest Hfuel Hne.
  - destruct rest; [done|simpl in Hfuel; lia].
  - simpl. destruct (length rest <=? max_chunk_size) eqn:E.
    + apply Nat.leb_le in E. repeat constructor; [|done].
      destruct rest; [done|simpl; lia].
    + apply Nat.leb_gt in E.
      destruct (cut_point_range rest) as [Hlo Hhi].
      set (cut := cut_point boundary max_chunk_size overlap rest) in *.
      constructor.
      * rewrite length_take. lia.
      * apply IH; [rewrite length_drop; lia|].
        intros H0. apply (f_equal length) in H0.
        rewrite length_drop in H0. simpl in H0. lia.
Qed.

Lemma reassemble_numbered (l : list pystr) :
  reassemble overlap (imap (λ i t, {| text := t; sequence_index := i |}) l)
  = match l with
    | [] => []
    | c :: cs => c ++ concat (drop overlap <$> cs)
    end.
Proof.
  destruct l as [|c cs]; [done|].
  rewrite imap_cons. unfold reassemble. cbn [text]. f_equal. f_equal.
  rewrite fmap_imap, <- imap_const. by apply imap_ext.
Qed.

(** Claim C5. For every document text and every size and overlap with
    [overlap < max_chunk_size]: equal texts give equal chunk sequences, and
    the first chunk followed by every later chunk without its first
    [overlap] characters is the document text. *)
Theorem split_deterministic_lossless (document_text other : pystr) :
  (document_text = other →
   split boundary max_chunk_size overlap document_text
   = split boundary max_chunk_size overlap other)
  ∧ reassemble overlap (split boundary max_chunk_size overlap document_text)
    = document_text.
Proof.
  split; [by intros ->|].
  unfold split. destruct document_text as [|c t] eqn:E; [done|].
  rewrite reassemble_numbered. by apply split_from_lossless.
Qed.

(** No chunk is empty and none exceeds the size budget. *)
Lemma split_sizes document_text :
  Forall (λ c, 0 < length (text c) ∧ length (text c) ≤ max_chunk_size)
    (split boundary max_chunk_size overlap document_text).
Proof.
  unfold split. destruct document_text as [|c t] eqn:E; [constructor|].
  rewrite <- E.
  assert (H : Forall (λ c, 0 < length c ∧ length c ≤ max_chunk_size)
                (split_from boundary max_chunk_size overlap
                   (length document_text) document_text)).
  { apply split_from_sizes; [done|by subst]. }
  revert H. generalize (split_from boundary max_chunk_size overlap
                          (length document_text) document_text).
  intros l H. apply Forall_forall. intros ch Hch.
  apply list_elem_of_lookup in Hch as [i Hi].
  rewrite list_lookup_imap in Hi.
  destruct (l !! i) as [x|] eqn:Hx; [|done].
  simpl in Hi. injection Hi as <-. simpl.
  eapply Forall_forall in H; [exact H|].
  apply list_elem_of_lookup. eauto.
Qed.

End Split.

(** The scenario of the specification: a document of 1000 characters cut
    with size 400 and overlap 50 gives three chunks of 400, 400 and 300
    characters, and the second starts 350 characters into the first. *)
Example thousand_letters_scenario :
  let chunks := split (λ _, None) 400 50 Samples.thousand_letters in
  (λ c, (sequence_index c, length (text c))) <$> chunks
  = [(0, 400); (1, 400); (2, 300)]
  ∧ (text <$> chunks) !! 1
    = Some (take 400 (drop 350 Samples.thousand_letters)).
Proof. vm_compute. split; reflexivity. Qed.

Example three_sentences_chunks :
  text <$> split last_sentence_end 40 5 Samples.three_sentences
  = [lit "Warm up first."; lit "irst. Squat deep and keep the back strai";
     lit "straight. Then rest."].
Proof. vm_compute. reflexivity. Qed.

Lemma split_deterministic_lossless_witness :
  split last_sentence_end 40 5 Samples.three_sentences
  = split last_sentence_end 40 5 Samples.three_sentences
  ∧ reassemble 5 (split last_sentence_end 40 5 Samples.three_sentences)
    = Samples.three_sentences.
Proof.
  assert (H : 5 < 40) by lia.
  destruct (split_deterministic_lossless last_sentence_end 40 5 H
              Samples.three_sentences Samples.three_sentences) as [H1 H2].
  split; [exact (H1 eq_refl)|exact H2].
Defined.

End ChunkerFacts.

(** ** Facts about batch ingestion *)

Module IngestFacts.
Import InitKnowledgeBase IngestSpec.

Section Script.
Context {KB : Type}.
Context (add_knowledge_from_file :
           pystr → list (pystr * pystr) → KB → (bool * Z) * KB).
Context (get_knowledge_stats : KB → KnowledgeStats).

(** The loop started with any two counters: every file is handed to the
    service, and the counters grow by the successes and their chunks. *)
Lemma import_files_counts files success_count total kb :
  let r := import_files add_knowledge_from_file files success_count total kb in
  (λ o : pystr * bool * Z, o.1.1) <$> outcomes r.2 = path_of <$> files
  ∧ r.1.1.1
    = (success_count + Z.of_nat (length (successes (outcomes r.2))))%Z
  ∧ r.1.1.2 = (total + chunk_sum (successes (outcomes r.2)))%Z.
Proof.
  revert success_count total kb.
  induction files as [|f files IH]; intros success_count total kb.
  - simpl. repeat split; lia.
  - cbn [import_files].
    destruct (add_knowledge_from_file (path_of f) _ kb)
      as [[success chunks] kb'].
    set (counters := if success
                     then ((success_count + 1)%Z, (total + chunks)%Z)
                     else (success_count, total)).
    specialize (IH counters.1 counters.2 kb').
    destruct (import_files add_knowledge_from_file files counters.1
                counters.2 kb') as [[[c t] kb''] steps].
    cbn [fst snd] in *. destruct IH as (IH1 & IH2 & IH3).
    unfold outcomes in *. cbn [omap list_omap]. fold (outcomes steps) in *.
    rewrite !fmap_cons. cbn [fst snd]. rewrite IH1.
    split; [done|].
    unfold successes in *. subst counters.
    destruct success.
    + rewrite filter_cons_True by done. cbn [length chunk_sum foldr fst snd] in *.
      fold (chunk_sum (filter (λ r : pystr * bool * Z, r.1.2 = true) (outcomes steps))).
      unfold chunk_sum in *. split; lia.
    + rewrite filter_cons_False by done. done.
Qed.

(** What the loop records and prints for a file is what the service
    answered for it, on the knowledge base the files before it left; and
    the knowledge base at the end is the one the service leaves. *)
Lemma import_files_answers files success_count total kb :
  let r := import_files add_knowledge_from_file files success_count total kb in
  outcomes r.2 = service_answers add_knowledge_from_file files kb
  ∧ printed r.2
    = zip_with result_line files
        (service_answers add_knowledge_from_file files kb)
  ∧ r.1.2 = service_kb add_knowledge_from_file files kb.
Proof.
  revert success_count total kb.
  induction files as [|f files IH]; intros success_count total kb; [done|].
  cbn [import_files service_answers service_kb].
  destruct (add_knowledge_from_file (path_of f) _ kb)
    as [[success chunks] kb'].
  set (counters := if success
                   then ((success_count + 1)%Z, (total + chunks)%Z)
                   else (success_count, total)).
  specialize (IH counters.1 counters.2 kb').
  destruct (import_files add_knowledge_from_file files counters.1
              counters.2 kb') as [[r kb''] steps].
  cbn [fst snd] in *. destruct IH as (IH1 & IH2 & IH3).
  unfold outcomes, printed in *. cbn [omap list_omap zip_with].
  fold (outcomes steps) in *. fold (printed steps) in *.
  rewrite IH1, IH2, IH3. split; [done|]. split; [|done].
  unfold result_line. cbn [fst snd]. by destruct success.
Qed.

Lemma service_answers_paths files kb :
  (λ o : pystr * bool * Z, o.1.1)
    <$> service_answers add_knowledge_from_file files kb
  = path_of <$> files.
Proof.
  revert kb. induction files as [|f files IH]; intros kb; [done|].
  cbn [service_answers]. rewrite !fmap_cons. cbn [fst snd]. by rewrite IH.
Qed.

Lemma outcomes_app steps steps' :
  outcomes (steps ++ steps') = outcomes steps ++ outcomes steps'.
Proof. apply omap_app. Qed.

Lemma import_files_no_summary files success_count total kb a b d :
  Shown (Summary a b d)
  ∉ (import_files add_knowledge_from_file files success_count total kb).2.
Proof.
  revert success_count total kb.
  induction files as [|f files IH]; intros success_count total kb.
  - apply not_elem_of_nil.
  - cbn [import_files].
    destruct (add_knowledge_from_file (path_of f) _ kb)
      as [[success chunks] kb'].
    set (counters := if success
                     then ((success_count + 1)%Z, (total + chunks)%Z)
                     else (success_count, total)).
    specialize (IH counters.1 counters.2 kb').
    destruct (import_files add_knowledge_from_file files counters.1
                counters.2 kb') as [[r kb''] steps].
    cbn [snd] in *. rewrite !not_elem_of_cons.
    split; [done|]. split; [by destruct success|done].
Qed.

(** Claim C3. When the directory holds documents, the script hands every
    one of them to [add_knowledge_from_file], in order, whatever the
    service answered for the documents before it (also [success = False]):
    the calls it makes and the answers it gets are those of the service
    asked about each document in turn, one per document. The summary it
    prints, and the only one, reports the number of documents for which
    the service answered [success = True] and the sum of the chunk counts
    the service answered for those documents; and the knowledge base at
    the end is the one the service leaves after all the documents. *)
Theorem failed_document_does_not_stop_batch (entries : list DirEntry)
    (kb : KB) :
  let files := document_files entries in
  let answers := service_answers add_knowledge_from_file files kb in
  let run :=
    init_knowledge_base add_knowledge_from_file get_knowledge_stats
      (Some entries) kb in
  files ≠ [] →
  outcomes run.2 = answers
  ∧ (λ o : pystr * bool * Z, o.1.1) <$> outcomes run.2 = path_of <$> files
  ∧ length (outcomes run.2) = length files
  ∧ Shown (Summary (Z.of_nat (length (successes answers)))
             (length files) (chunk_sum (successes answers)))
    ∈ run.2
  ∧ (∀ a b c, Shown (Summary a b c) ∈ run.2 →
              a = Z.of_nat (length (successes answers))
              ∧ b = length files
              ∧ c = chunk_sum (successes answers))
  ∧ run.1 = service_kb add_knowledge_from_file files kb.
Proof.
  intros files answers run Hne. subst run answers. unfold init_knowledge_base.
  fold files. destruct files as [|f fs] eqn:E; [done|].
  pose proof (import_files_counts (f :: fs) 0 0 kb) as H.
  pose proof (import_files_answers (f :: fs) 0 0 kb) as Ha.
  pose proof (λ a b c, import_files_no_summary (f :: fs) 0 0 kb a b c) as Hno.
  destruct (import_files add_knowledge_from_file (f :: fs) 0 0 kb)
    as [[[c t] kb'] loop].
  cbn [fst snd] in *. destruct H as (H1 & H2 & H3).
  destruct Ha as (Ha1 & _ & Ha3).
  rewrite !outcomes_app.
  change (outcomes [Shown Starting; Shown (Found (length (f :: fs)))])
    with (@nil (pystr * bool * Z)).
  change (outcomes [Shown (Summary c (length (f :: fs)) t);
                    Shown (Stats (get_knowledge_stats kb'))])
    with (@nil (pystr * bool * Z)).
  rewrite app_nil_l, app_nil_r. rewrite Ha1 in *.
  assert (Hc : c = Z.of_nat
                     (length (successes
                                (service_answers add_knowledge_from_file
                                   (f :: fs) kb)))) by lia.
  assert (Ht : t = chunk_sum
                     (successes (service_answers add_knowledge_from_file
                                   (f :: fs) kb))) by lia.
  split; [done|]. split; [exact H1|]. split.
  { apply (f_equal length) in H1. by rewrite !length_fmap in H1. }
  split; [|split; [|done]].
  - rewrite !elem_of_app, !elem_of_cons. right. right. left.
    by rewrite Hc, Ht.
  - intros a b d. rewrite !elem_of_app, !elem_of_cons, elem_of_nil.
    intros [[?|[?|[]]]|[Hin|[Hs|[?|[]]]]]; try done.
    + by apply Hno in Hin.
    + injection Hs as -> -> ->. by rewrite <- Hc, <- Ht.
Qed.

End Script.

(** Three files, the second of which fails: the third is still imported
    and the totals are those of the first and the third. *)
Example three_files_batch :
  init_knowledge_base Samples.counting_ingest Samples.counting_stats
    (Some Samples.three_files) 0%Z
  = (4%Z,
     [Shown Starting; Shown (Found 3);
      Ingested (lit "data/knowledge_base/a.md") true 2;
      Shown (Imported (lit "a.md") 2);
      Ingested (lit "data/knowledge_base/bad.pdf") false 0;
      Shown (ImportFailed (lit "bad.pdf"));
      Ingested (lit "data/knowledge_base/plan.TXT") true 2;
      Shown (Imported (lit "plan.TXT") 2);
      Shown (Summary 2 3 4);
      Shown (Stats {| total_documents := 0; total_chunks := 4;
                      collection_name := lit "fitness" |})]).
Proof. vm_compute. reflexivity. Qed.

(** What the service itself answers for the three files. *)
Example three_files_answers :
  service_answers Samples.counting_ingest
    (document_files Samples.three_files) 0%Z
  = [(lit "data/knowledge_base/a.md", true, 2%Z);
     (lit "data/knowledge_base/bad.pdf", false, 0%Z);
     (lit "data/knowledge_base/plan.TXT", true, 2%Z)].
Proof. vm_compute. reflexivity. Qed.

Lemma failed_document_does_not_stop_batch_witness :
  let files := document_files Samples.three_files in
  let answers := service_answers Samples.counting_ingest files 0%Z in
  let run :=
    init_knowledge_base Samples.counting_ingest Samples.counting_stats
      (Some Samples.three_files) 0%Z in
  outcomes run.2 = answers
  ∧ (λ o : pystr * bool * Z, o.1.1) <$> outcomes run.2 = path_of <$> files
  ∧ length (outcomes run.2) = length files
  ∧ Shown (Summary (Z.of_nat (length (successes answers)))
             (length files) (chunk_sum (successes answers)))
    ∈ run.2
  ∧ (∀ a b c, Shown (Summary a b c) ∈ run.2 →
              a = Z.of_nat (length (successes answers))
              ∧ b = length files
              ∧ c = chunk_sum (successes answers))
  ∧ run.1 = service_kb Samples.counting_ingest files 0%Z.
Proof.
  apply (failed_document_does_not_stop_batch Samples.counting_ingest
           Samples.counting_stats Samples.three_files 0%Z).
  vm_compute. discriminate.
Defined.

End IngestFacts.

(** ** The store and the retriever on sample data *)

Module ServiceChecks.
Import ConversationManager StoreSpec Retriever Samples.

Lemma append_unknown_fails_known_appends_witness :
  let s := Cli.manager after_new in
  add_message (lit "nobody") USER (lit "hi") None empty
  = (Raised NotFoundError, empty)
  ∧ ∃ m s',
      add_message legs_id ASSISTANT (lit "hello") (Some four_passages) s
      = (Returned m, s')
      ∧ role m = ASSISTANT ∧ msg_content m = lit "hello"
      ∧ sources m = default [] (Some four_passages)
      ∧ timestamp m = clock s
      ∧ (∃ c', conversations s' !! legs_id = Some c'
               ∧ messages c' = messages legs ++ [m]
               ∧ updated_at c' = timestamp m
               ∧ id c' = id legs ∧ title c' = title legs
               ∧ created_at c' = created_at legs
               ∧ conversations s' = <[legs_id := c']> (conversations s)
               ∧ (updated_at legs < clock s
                  → updated_at legs < updated_at c'))
      ∧ (∀ other, other ≠ legs_id →
           conversations s' !! other = conversations s !! other)
      ∧ dom (conversations s') = dom (conversations s)
      ∧ issued s' = issued s
      ∧ clock s' = S (clock s)
      ∧ (timely s → timely s').
Proof.
  split.
  - apply (StoreFacts.append_unknown_fails_known_appends empty
             (lit "nobody") USER (lit "hi") None).
    vm_compute. reflexivity.
  - apply (StoreFacts.append_unknown_fails_known_appends
             (Cli.manager after_new) legs_id ASSISTANT (lit "hello")
             (Some four_passages)).
    vm_compute. reflexivity.
Defined.

(** An append to the conversation [new legs] created, one tick after its
    creation: the message is stamped 2 and [updated_at] goes from 1
    to 2. *)
Example append_advances_updated_at :
  let r := add_message legs_id ASSISTANT (lit "hello") None
             (Cli.manager after_new) in
  updated_at <$> conversations (Cli.manager after_new) !! legs_id = Some 1
  ∧ timestamp <$> (match r.1 with Returned m => Some m | Raised _ => None end)
    = Some 2
  ∧ updated_at <$> conversations r.2 !! legs_id = Some 2.
Proof. vm_compute. auto. Qed.

Example retrieve_small_index :
  retrieve embed_one first_component None small_index (lit "squat") 2
  = Returned [{| content := lit "squat deep"; source := lit "b.md";
                 score := 9 # 10 |};
              {| content := lit "warm up first"; source := lit "a.md";
                 score := 1 # 2 |}].
Proof. vm_compute. reflexivity. Qed.

Lemma retrieve_bounded_sorted_witness :
  (∃ rs, retrieve embed_one first_component None small_index (lit "squat") 2
         = Returned rs
         ∧ (Z.of_nat (length rs) ≤ 2)%Z
         ∧ StronglySorted by_score_desc rs)
  ∧ retrieve embed_one first_component None [] (lit "x") 5 = Returned [].
Proof.
  split.
  - destruct (RetrieverFacts.retrieve_bounded_sorted embed_one
                first_component None small_index (lit "squat") 2)
      as (H1 & H2 & _); [lia|].
    destruct (H1 [1%Q] eq_refl) as [rs Hrs].
    exists rs. split; [exact Hrs|]. exact (H2 rs Hrs).
  - destruct (RetrieverFacts.retrieve_bounded_sorted embed_one
                first_component None [] (lit "x") 5)
      as (_ & _ & H3); [lia|].
    exact (H3 eq_refl).
Defined.

End ServiceChecks.

(** ** Facts about a whole chat session *)

Module SessionFacts.
Import ConversationManager Cli ChatSpec SessionSpec PyStrFacts StoreFacts
  CliFacts.

Section Session.
Context (console : Output → option MarkupFault).
Context (oc : OllamaClient) (rs : RagService) (no_rag : bool).

Lemma current_history_bound st cid conv :
  current_id st = Some cid →
  conversations (manager st) !! cid = Some conv →
  current_history st = messages conv.
Proof.
  intros Hcur Hconv. unfold current_history, get_conversation_history.
  by rewrite Hcur, Hconv.
Qed.

(** How a turn can leave the loop by an exception. *)
Lemma turn_abort ui st e :
  (turn console oc rs no_rag ui st).1.1 = Abort e →
  (reaches_generation st ui = true
   ∧ gateway_result oc rs no_rag ui (current_history st) = Raised e
   ∧ is_Exception e = false ∧ e ≠ KeyboardInterrupt)
  ∨ (reaches_generation st ui = true
     ∧ gateway_result oc rs no_rag ui (current_history st)
       = Raised (MarkupError ClosingTag)
     ∧ e = MarkupError ClosingTag)
  ∨ ∃ f o, e = MarkupError f ∧ console o = Some f.
Proof.
  destruct (is_new ui) eqn:Hnew.
  { rewrite (turn_new console oc rs no_rag ui st Hnew). cbn [fst snd].
    rewrite after_printing_control.
    destruct (first_fault console [Created _]) as [[]|] eqn:E; try done.
    intros [= <-]. right. right.
    destruct (first_fault_console console _ _ E) as (o & _ & Ho); [|by eauto].
    by intros e ?%list_elem_of_singleton. }
  destruct (reaches_generation st ui) eqn:Hr.
  2:{ intros H. right. right.
      by destruct (turn_quiet console oc rs no_rag ui st Hnew Hr)
        as (_ & _ & _ & _ & Ha); apply Ha. }
  destruct (turn_question console oc rs no_rag ui st Hr)
    as (cid & conv & Hcur & Hconv & Ht).
  cbv zeta in Ht. rewrite Ht. clear Ht.
  rewrite (current_history_bound st cid conv Hcur Hconv).
  destruct (gateway_result oc rs no_rag ui (messages conv))
    as [[a srcs]|e0]; cbn [fst snd].
  - rewrite after_printing_control.
    destruct (first_fault console (answer_outputs a srcs)) as [[]|] eqn:E;
      try done.
    intros [= <-]. right. right.
    destruct (first_fault_console console _ _ E) as (o & _ & Ho); [|by eauto].
    intros e. apply answer_outputs_no_error.
  - rewrite handle_abort.
    intros [(Hne & Hki & ->)|(Hex & f & Hf & ->)]; [by left|].
    right. unfold fault in Hf.
    destruct e0; cbn [free_text] in Hf; try done;
      try (by right; exists f; eexists; split; [done|exact Hf]).
    destruct fault0; [|done]. injection Hf as <-. by left.
Qed.

(** With a console that renders everything, a turn leaves the loop by an
    exception exactly when the gateway raises one that is no [Exception],
    or a [MarkupError] whose message cannot be printed. *)
Lemma turn_abort_rendering ui st e :
  (∀ o, console o = None) →
  (turn console oc rs no_rag ui st).1.1 = Abort e
  ↔ reaches_generation st ui = true
    ∧ gateway_result oc rs no_rag ui (current_history st) = Raised e
    ∧ (is_Exception e = false ∧ e ≠ KeyboardInterrupt
       ∨ e = MarkupError ClosingTag).
Proof.
  intros Hall. split.
  - intros H. apply turn_abort in H as [(? & ? & ? & ?)|[(? & ? & ->)|H]].
    + auto.
    + auto.
    + destruct H as (f & o & _ & Ho). by rewrite Hall in Ho.
  - intros (Hr & Hg & He).
    destruct (turn_question console oc rs no_rag ui st Hr)
      as (cid & conv & Hcur & Hconv & Ht).
    cbv zeta in Ht. rewrite Ht. clear Ht.
    rewrite (current_history_bound st cid conv Hcur Hconv) in Hg.
    rewrite Hg. cbn [fst]. apply handle_abort.
    destruct He as [[? ?]| ->]; [by left|].
    right. split; [done|]. by exists ClosingTag.
Qed.

Lemma turn_break ui st :
  (turn console oc rs no_rag ui st).1.1 = Break
  ↔ is_quit ui = true
    ∨ (reaches_generation st ui = true
       ∧ gateway_result oc rs no_rag ui (current_history st)
         = Raised KeyboardInterrupt).
Proof.
  destruct (is_new ui) eqn:Hnew.
  { destruct (is_new_not_command ui Hnew) as (Hq & _ & _ & Hquestion).
    rewrite (turn_new console oc rs no_rag ui st Hnew). cbn [fst].
    rewrite after_printing_control, Hq.
    unfold reaches_generation. rewrite Hquestion. cbn [andb].
    split; [|by intros [?|[? _]]].
    by destruct (first_fault console _) as [[]|]. }
  destruct (reaches_generation st ui) eqn:Hr.
  - rewrite (question_is_no_quit ui (reaches_generation_question ui st Hr)).
    destruct (turn_question console oc rs no_rag ui st Hr)
      as (cid & conv & Hcur & Hconv & Ht).
    cbv zeta in Ht. rewrite Ht.
    rewrite (current_history_bound st cid conv Hcur Hconv).
    destruct (gateway_result oc rs no_rag ui (messages conv))
      as [[a srcs]|e]; cbn [fst].
    + rewrite after_printing_control.
      split; [by destruct (first_fault console _) as [[]|]|]. by intros [?|[_ ?]].
    + rewrite handle_break. split; [intros ->; auto|].
      by intros [?|[_ [= ->]]].
  - destruct (turn_quiet console oc rs no_rag ui st Hnew Hr)
      as (_ & _ & _ & -> & _).
    split; [auto|]. by intros [?|[? _]].
Qed.

(** Until a [new] command is given, a session started with [current_id]
    unbound does nothing: whatever else is typed, the state at the end is
    the state at the start and no request is made to a gateway. *)
Theorem nothing_happens_before_new (inputs : list pystr) (st : ChatState) :
  current_id st = None →
  Forall (λ ui, is_new ui = false) inputs →
  (interactive_chat console oc rs no_rag inputs st).1.2 = st
  ∧ calls (interactive_chat console oc rs no_rag inputs st).2 = [].
Proof.
  intros Hcur Hin. induction Hin as [|ui inputs Hnew _ IH]; [done|].
  assert (Hr : reaches_generation st ui = false).
  { unfold reaches_generation. rewrite Hcur. apply andb_false_r. }
  destruct (turn_quiet console oc rs no_rag ui st Hnew Hr)
    as (Hst & Hcalls & _).
  cbn [interactive_chat].
  destruct (turn console oc rs no_rag ui st) as [[c st'] ev].
  cbn [fst snd] in Hst, Hcalls. subst st'.
  destruct c; [|done..].
  destruct (interactive_chat console oc rs no_rag inputs st)
    as [[c' st''] ev'].
  cbn [fst snd] in *. destruct IH as [-> IH2].
  by rewrite calls_app, Hcalls, IH2.
Qed.

(** A turn ends the loop by [break] exactly when the input is one of the
    quit words, or when it reaches the gateway and the gateway call is
    interrupted from the keyboard. It ends the loop by an exception that
    nothing catches only when the gateway raises one that is no
    [Exception], or when the console raises [MarkupError] where the
    handler cannot report it; with a console that renders everything,
    exactly when the gateway raises an exception that is no [Exception]
    (and no [KeyboardInterrupt]) or a [MarkupError] for a closing tag. *)
Theorem turn_breaks_iff (ui : pystr) (st : ChatState) :
  let r := turn console oc rs no_rag ui st in
  (r.1.1 = Break
   ↔ is_quit ui = true
     ∨ (reaches_generation st ui = true
        ∧ gateway_result oc rs no_rag ui (current_history st)
          = Raised KeyboardInterrupt))
  ∧ (∀ e, r.1.1 = Abort e →
          (reaches_generation st ui = true
           ∧ gateway_result oc rs no_rag ui (current_history st) = Raised e
           ∧ is_Exception e = false ∧ e ≠ KeyboardInterrupt)
          ∨ ∃ f, e = MarkupError f)
  ∧ ((∀ o, console o = None) →
     ∀ e, r.1.1 = Abort e
          ↔ reaches_generation st ui = true
            ∧ gateway_result oc rs no_rag ui (current_history st) = Raised e
            ∧ (is_Exception e = false ∧ e ≠ KeyboardInterrupt
               ∨ e = MarkupError ClosingTag)).
Proof.
  cbv zeta. split; [apply turn_break|]. split.
  - intros e H. apply turn_abort in H as [?|[(_ & _ & ->)|(f & _ & -> & _)]];
      eauto.
  - intros Hall e. by apply turn_abort_rendering.
Qed.

Lemma turn_shown_sources ui st :
  ∃ srcs, shown_sources (turn console oc rs no_rag ui st).2
          `prefix_of` reference_lines srcs
          ∧ (no_rag = true → srcs = []).
Proof.
  destruct (is_new ui) eqn:Hnew.
  { exists []. rewrite (turn_new console oc rs no_rag ui st Hnew). cbn [snd].
    rewrite after_printing_sources. split; [|done].
    etrans; [apply shown_sources_prefix|]. done. }
  destruct (reaches_generation st ui) eqn:Hr.
  - destruct (turn_question console oc rs no_rag ui st Hr)
      as (cid & conv & Hcur & Hconv & Ht).
    cbv zeta in Ht. rewrite Ht. clear Ht.
    assert (Hsrc : no_rag = true →
                   ∀ a srcs, gateway_result oc rs no_rag ui (messages conv)
                             = Returned (a, srcs) → srcs = []).
    { intros -> a srcs. unfold gateway_result.
      destruct (generate oc ui _); [|done]. by intros [= _ <-]. }
    destruct (gateway_result oc rs no_rag ui (messages conv))
      as [[a srcs]|e]; cbn [snd app];
      rewrite shown_sources_cons_call by apply gateway_call_is_call.
    + exists srcs. rewrite after_printing_sources, shown_sources_answer.
      split; [apply rendered_lines_prefix|]. intros Hno. by eapply Hsrc.
    + exists []. by rewrite handle_shown_sources.
  - exists [].
    by destruct (turn_quiet console oc rs no_rag ui st Hnew Hr)
      as (_ & _ & -> & _).
Qed.

(** A turn shows at most three reference lines, and in no-RAG mode it
    shows none, whatever the input and the state. *)
Theorem at_most_three_references (ui : pystr) (st : ChatState) :
  length (shown_sources (turn console oc rs no_rag ui st).2) ≤ 3
  ∧ (no_rag = true → shown_sources (turn console oc rs no_rag ui st).2 = []).
Proof.
  destruct (turn_shown_sources ui st) as (srcs & Hp & Hno). split.
  - etrans; [apply (prefix_length _ _ Hp)|apply reference_lines_length].
  - intros H. rewrite (Hno H) in Hp. by apply prefix_nil_inv in Hp.
Qed.

(** Only a [new] command or a question that reaches the gateway changes
    the state of the session: any other turn (a quit word, [help],
    [history], a blank line, a question that cannot be recorded) leaves the
    store and [current_id] as they were and asks nothing of a gateway. *)
Theorem other_turns_change_nothing (ui : pystr) (st : ChatState) :
  is_new ui = false →
  reaches_generation st ui = false →
  (turn console oc rs no_rag ui st).1.2 = st
  ∧ calls (turn console oc rs no_rag ui st).2 = [].
Proof.
  intros Hnew Hr.
  destruct (turn_quiet console oc rs no_rag ui st Hnew Hr) as (H1 & H2 & _).
  by split.
Qed.

(** What is typed after a quit word is never processed: the session is the
    same as if the quit word had been the last line. *)
Theorem lines_after_quit_are_ignored (before : list pystr) (ui : pystr)
    (after : list pystr) (st : ChatState) :
  is_quit ui = true →
  interactive_chat console oc rs no_rag (before ++ ui :: after) st
  = interactive_chat console oc rs no_rag (before ++ [ui]) st.
Proof.
  intros Hquit. revert st.
  induction before as [|x before IH]; intros st.
  - simpl. by rewrite (turn_quit console oc rs no_rag ui st Hquit).
  - cbn [app interactive_chat].
    destruct (turn console oc rs no_rag x st) as [[c st'] ev].
    destruct c; [|done..]. by rewrite IH.
Qed.

(** A [new] command binds [current_id] to a conversation it has just
    created: the conversation is in the store under its id, has no message,
    is titled with what follows [new] stripped of surrounding whitespace
    (or with the placeholder when nothing is left), and from then on every
    question reaches the gateway. *)
Theorem new_command_opens_conversation (ui : pystr) (st : ChatState) :
  is_new ui = true →
  let st' := (turn console oc rs no_rag ui st).1.2 in
  ∃ c, current_id st' = Some (id c)
       ∧ conversations (manager st') !! id c = Some c
       ∧ messages c = []
       ∧ title c = default (placeholder_title (clock (manager st)))
                     (or_None (strip (drop 4 ui)))
       ∧ ∀ q, is_question q = true → reaches_generation st' q = true.
Proof.
  intros Hnew. rewrite (turn_new console oc rs no_rag ui st Hnew).
  cbn [fst snd].
  eexists. split; [reflexivity|].
  unfold create_conversation. cbn [fst snd manager current_id id conversations].
  split; [apply lookup_insert_eq|]. split; [done|]. split; [done|].
  intros q Hq. unfold reaches_generation.
  cbn [manager current_id conversations]. rewrite Hq. simpl.
  apply bool_decide_eq_true. rewrite lookup_insert_eq. eauto.
Qed.

Lemma well_formed_create t s :
  well_formed s → well_formed (create_conversation t s).2.
Proof.
  unfold well_formed, create_conversation. cbn [snd conversations issued].
  intros Hsub. rewrite dom_insert. by apply union_mono_l.
Qed.

Lemma well_formed_append cid r t srcs s :
  well_formed s → well_formed (add_message cid r t srcs s).2.
Proof.
  unfold well_formed, add_message. intros H.
  destruct (conversations s !! cid) as [c|] eqn:E; [|done].
  cbn [snd conversations issued]. rewrite dom_insert.
  apply union_subseteq. split; [|exact H].
  apply singleton_subseteq_l, H, elem_of_dom. eauto.
Qed.

Lemma fresh_id_unknown s :
  well_formed s → conversations s !! fresh (issued s) = None.
Proof.
  intros H. apply not_elem_of_dom. intros Hin.
  apply H in Hin. by apply is_fresh in Hin.
Qed.

Lemma lookup_other_after_append cid other r t srcs s :
  other ≠ cid →
  conversations (add_message cid r t srcs s).2 !! other
  = conversations s !! other.
Proof.
  intros Hne. unfold add_message.
  destruct (conversations s !! cid); [|done].
  cbn [snd conversations]. by apply lookup_insert_ne.
Qed.

(** One turn keeps a conversation that [current_id] is not bound to. *)
Lemma turn_keeps_conversation ui st cid c :
  well_formed (manager st) →
  conversations (manager st) !! cid = Some c →
  current_id st ≠ Some cid →
  well_formed (manager (turn console oc rs no_rag ui st).1.2)
  ∧ conversations (manager (turn console oc rs no_rag ui st).1.2) !! cid
    = Some c
  ∧ current_id (turn console oc rs no_rag ui st).1.2 ≠ Some cid.
Proof.
  intros Hwf Hc Hcur.
  destruct (is_new ui) eqn:Hnew.
  { rewrite (turn_new console oc rs no_rag ui st Hnew).
    cbn [fst snd manager current_id].
    split; [by apply well_formed_create|].
    assert (Hne : fresh (issued (manager st)) ≠ cid).
    { intros <-. rewrite (fresh_id_unknown _ Hwf) in Hc. done. }
    unfold create_conversation. cbn [fst snd conversations id].
    split; [by rewrite lookup_insert_ne|]. by intros [= ?]. }
  destruct (reaches_generation st ui) eqn:Hr.
  - destruct (turn_question console oc rs no_rag ui st Hr)
      as (cid0 & conv & Hcur0 & Hconv & Ht).
    simpl in Ht. rewrite Ht. clear Ht.
    assert (Hne : cid ≠ cid0) by (intros ->; congruence).
    destruct (gateway_result oc rs no_rag ui (messages conv))
      as [[a srcs]|e]; cbn [fst snd manager current_id].
    + split; [by do 2 apply well_formed_append|].
      split; [by rewrite !lookup_other_after_append|congruence].
    + split; [by apply well_formed_append|].
      split; [by rewrite lookup_other_after_append|congruence].
  - destruct (turn_quiet console oc rs no_rag ui st Hnew Hr) as (-> & _).
    done.
Qed.

Lemma session_keeps_conversation inputs st cid c :
  well_formed (manager st) →
  conversations (manager st) !! cid = Some c →
  current_id st ≠ Some cid →
  conversations
    (manager (interactive_chat console oc rs no_rag inputs st).1.2) !! cid
  = Some c.
Proof.
  revert st. induction inputs as [|ui inputs IH]; intros st Hwf Hc Hcur;
    [done|].
  destruct (turn_keeps_conversation ui st cid c Hwf Hc Hcur)
    as (Hwf' & Hc' & Hcur').
  cbn [interactive_chat].
  destruct (turn console oc rs no_rag ui st) as [[k st'] ev].
  cbn [fst snd] in *.
  destruct k; [|done..].
  specialize (IH st' Hwf' Hc' Hcur').
  by destruct (interactive_chat console oc rs no_rag inputs st')
    as [[k' st''] ev'].
Qed.

(** The set-up of [chat]: the loop is entered with [current_id] unbound
    and with the store as it was, or with one new conversation when no id
    was given; nothing is asked of a gateway. It raises when the backend
    is not connected or the given id is unknown, and otherwise only when
    the console fails. *)
Lemma setup_run (conversation_id : option pystr) (s : Store) :
  ∃ r outs,
    setup console oc conversation_id {| manager := s; current_id := None |}
    = (r,
       {| manager :=
            if connected (health_check oc) then
              match conversation_id ≫= or_None with
              | Some _ => s
              | None => (create_conversation None s).2
              end
            else s;
          current_id := None |},
       Print <$> outs)
    ∧ (connected (health_check oc) = false ∨ unknown_given conversation_id s
       → ∃ e, r = Raised e ∧ exit_status e = 1%Z)
    ∧ (r ≠ Returned tt →
       connected (health_check oc) = false ∨ unknown_given conversation_id s
       ∨ ∃ o f, console o = Some f).
Proof.
  unfold setup, unknown_given, get_conversation.
  unfold bind at 1, say at 1. cbn [fault free_text emit].
  destruct (connected (health_check oc)) eqn:Hconn; cbn [negb].
  2:{ exists (Raised (TyperExit 1)), [Banner; NotConnected].
      split; [done|]. split; [eauto|]. auto. }
  unfold bind at 1. unfold bind at 1, say at 1. cbn [fault free_text emit].
  destruct (conversation_id ≫= or_None) as [cid|].
  - unfold bind at 1, with_manager at 1. cbn [manager current_id].
    destruct (conversations s !! cid) as [c|] eqn:Hc.
    + unfold say at 1. cbn [fault free_text].
      destruct (console (Continuing (title c))) as [f|] eqn:Hf;
        cbn [emit raise].
      * exists (Raised (MarkupError f)), [Banner; ServiceStatus (health_check oc)].
        split; [done|]. split.
        -- intros [?|(cid' & [= <-] & ?)]; congruence.
        -- intros _. right. right. eauto.
      * unfold say at 1. cbn [fault free_text emit].
        exists (Returned tt),
          [Banner; ServiceStatus (health_check oc); Continuing (title c); Hint].
        split; [done|]. split; [|done].
        intros [?|(cid' & [= <-] & ?)]; congruence.
    + unfold bind at 1, say at 1. cbn [fault free_text].
      destruct (console (NoSuchConversation cid)) as [f|]; cbn [emit raise].
      * exists (Raised (MarkupError f)), [Banner; ServiceStatus (health_check oc)].
        split; [done|]. split; [eauto|]. intros _. right. left. eauto.
      * exists (Raised (TyperExit 1)),
          [Banner; ServiceStatus (health_check oc); NoSuchConversation cid].
        split; [done|]. split; [eauto|]. intros _. right. left. eauto.
  - unfold bind at 1, with_manager at 1. cbn [manager current_id].
    destruct (create_conversation None s) as [conversation s1] eqn:Hcreate.
    cbn [snd]. unfold say at 1. cbn [fault free_text].
    destruct (console (CreatedShort (take 8 (id conversation)))) as [f|] eqn:Hf;
      cbn [emit raise].
    + exists (Raised (MarkupError f)), [Banner; ServiceStatus (health_check oc)].
      split; [done|]. split.
      * intros [?|(cid' & ? & ?)]; congruence.
      * intros _. right. right. eauto.
    + unfold say at 1. cbn [fault free_text emit].
      exists (Returned tt),
        [Banner; ServiceStatus (health_check oc);
         CreatedShort (take 8 (id conversation)); Hint].
      split; [done|]. split; [|done].
      intros [?|(cid' & ? & ?)]; congruence.
Qed.

(** No conversation that is in the store when [chat] is started is changed
    by the session, whatever is typed: not the one named by
    [--conversation] either, since the loop only ever writes to a
    conversation that one of its own [new] commands created. *)
Theorem chat_keeps_existing_conversations (conversation_id : option pystr)
    (inputs : list pystr) (s : Store) (cid : pystr) (c : Conversation) :
  well_formed s →
  conversations s !! cid = Some c →
  conversations (chat console oc rs no_rag conversation_id inputs s).1.2 !! cid
  = Some c.
Proof.
  intros Hwf Hc. unfold chat.
  destruct (setup_run conversation_id s) as (r & outs & -> & _).
  set (s0 := if connected (health_check oc) then
               match conversation_id ≫= or_None with
               | Some _ => s
               | None => (create_conversation None s).2
               end
             else s).
  assert (Hs0 : well_formed s0 ∧ conversations s0 !! cid = Some c).
  { subst s0. destruct (connected (health_check oc)); [|done].
    destruct (conversation_id ≫= or_None); [done|].
    split; [by apply well_formed_create|].
    unfold create_conversation. cbn [snd conversations].
    rewrite lookup_insert_ne; [done|].
    intros <-. by rewrite (fresh_id_unknown _ Hwf) in Hc. }
  destruct Hs0 as [Hwf0 Hc0].
  destruct r as [[]|e]; [|done].
  pose proof (session_keeps_conversation inputs
                {| manager := s0; current_id := None |} cid c Hwf0 Hc0) as H.
  destruct (interactive_chat console oc rs no_rag inputs _) as [[k st] ev].
  cbn [fst snd] in *. by apply H.
Qed.

(** The conversation [chat] creates when it is started without
    [--conversation] is still without a message when the session ends,
    whatever is typed. *)
Theorem startup_conversation_stays_empty (inputs : list pystr) (s : Store) :
  well_formed s →
  connected (health_check oc) = true →
  ∃ c, conversations (chat console oc rs no_rag None inputs s).1.2
         !! fresh (issued s) = Some c
       ∧ messages c = [].
Proof.
  intros Hwf Hconn. unfold chat.
  destruct (setup_run None s) as (r & outs & -> & _).
  rewrite Hconn. cbn [mbind option_bind].
  pose proof (well_formed_create None s Hwf) as Hwf1.
  assert (Hc1 : conversations (create_conversation None s).2
                  !! fresh (issued s)
                = Some (create_conversation None s).1).
  { unfold create_conversation. cbn [fst snd conversations].
    apply lookup_insert_eq. }
  assert (Hm : messages (create_conversation None s).1 = []) by done.
  destruct (create_conversation None s) as [conversation s1].
  cbn [fst snd] in *. exists conversation. split; [|done].
  destruct r as [[]|e]; [|done].
  pose proof (session_keeps_conversation inputs
                {| manager := s1; current_id := None |} (fresh (issued s))
                conversation Hwf1 Hc1) as H.
  destruct (interactive_chat console oc rs no_rag inputs _) as [[k st] ev].
  cbn [fst snd] in *. by apply H.
Qed.

(** One turn never removes or rewrites a recorded message: the history of
    every conversation after the turn is its history before the turn
    followed by at most two messages. *)
Lemma turn_appends ui st cid :
  well_formed (manager st) →
  well_formed (manager (turn console oc rs no_rag ui st).1.2)
  ∧ ∃ added,
      get_conversation_history cid
        (manager (turn console oc rs no_rag ui st).1.2)
      = get_conversation_history cid (manager st) ++ added
      ∧ length added ≤ 2.
Proof.
  intros Hwf.
  destruct (is_new ui) eqn:Hnew.
  { rewrite (turn_new console oc rs no_rag ui st Hnew). cbn [fst snd manager].
    split; [by apply well_formed_create|].
    exists []. rewrite app_nil_r. split; [|simpl; lia].
    unfold get_conversation_history, create_conversation.
    cbn [snd conversations].
    destruct (decide (cid = fresh (issued (manager st)))) as [->|Hne].
    - by rewrite lookup_insert_eq, (fresh_id_unknown _ Hwf).
    - by rewrite lookup_insert_ne. }
  destruct (reaches_generation st ui) eqn:Hr.
  - destruct (turn_question console oc rs no_rag ui st Hr)
      as (cid0 & conv & Hcur0 & Hconv & Ht).
    simpl in Ht. rewrite Ht. clear Ht.
    pose proof (history_after_append cid0 USER ui None (manager st) conv
                  Hconv) as H1.
    pose proof (known_after_append cid0 USER ui None (manager st)
                  (ex_intro _ conv Hconv)) as [c1 Hk].
    assert (H0 : get_conversation_history cid0 (manager st) = messages conv).
    { unfold get_conversation_history. by rewrite Hconv. }
    destruct (gateway_result oc rs no_rag ui (messages conv))
      as [[a srcs]|e]; cbn [fst snd manager].
    + split; [by do 2 apply well_formed_append|].
      destruct (decide (cid = cid0)) as [->|Hne].
      * rewrite (history_after_append cid0 ASSISTANT a (Some srcs) _ c1 Hk).
        assert (Hm : messages c1 = get_conversation_history cid0
                       (add_message cid0 USER ui None (manager st)).2).
        { unfold get_conversation_history. by rewrite Hk. }
        rewrite Hm, H1, H0, <- app_assoc.
        refine (ex_intro _ [_; _] (conj eq_refl _)). simpl. lia.
      * rewrite !history_other_after_append by done.
        exists []. rewrite app_nil_r. split; [done|simpl; lia].
    + split; [by apply well_formed_append|].
      destruct (decide (cid = cid0)) as [->|Hne].
      * rewrite H1, H0.
        refine (ex_intro _ [_] (conj eq_refl _)). simpl. lia.
      * rewrite history_other_after_append by done.
        exists []. rewrite app_nil_r. split; [done|simpl; lia].
  - destruct (turn_quiet console oc rs no_rag ui st Hnew Hr) as (-> & _).
    split; [done|]. exists []. rewrite app_nil_r. split; [done|simpl; lia].
Qed.

(** In one turn no recorded message is removed or rewritten, and at most
    two messages are added to a conversation. *)
Theorem turn_appends_at_most_two (ui : pystr) (st : ChatState)
    (cid : pystr) :
  well_formed (manager st) →
  ∃ added,
    get_conversation_history cid
      (manager (turn console oc rs no_rag ui st).1.2)
    = get_conversation_history cid (manager st) ++ added
    ∧ length added ≤ 2.
Proof. intros Hwf. by destruct (turn_appends ui st cid Hwf) as [_ ?]. Qed.

(** A session is append-only: the history every conversation has when the
    session starts is a prefix of the history it has when the session
    ends. *)
Theorem session_is_append_only (inputs : list pystr) (st : ChatState)
    (cid : pystr) :
  well_formed (manager st) →
  get_conversation_history cid (manager st)
  `prefix_of` get_conversation_history cid
                (manager (interactive_chat console oc rs no_rag inputs
                            st).1.2).
Proof.
  revert st. induction inputs as [|ui inputs IH]; intros st Hwf; [done|].
  destruct (turn_appends ui st cid Hwf) as (Hwf' & added & Hadd & _).
  cbn [interactive_chat].
  destruct (turn console oc rs no_rag ui st) as [[k st'] ev].
  cbn [fst snd] in *.
  destruct k.
  - specialize (IH st' Hwf').
    destruct (interactive_chat console oc rs no_rag inputs st')
      as [[k' st''] ev'].
    cbn [fst snd] in *. etrans; [|exact IH].
    rewrite Hadd. by apply prefix_app_r.
  - cbn [fst snd]. rewrite Hadd. by apply prefix_app_r.
  - cbn [fst snd]. rewrite Hadd. by apply prefix_app_r.
Qed.

(** With a console that renders everything and a gateway whose failures
    can be reported, no session ends by an exception. *)
Lemma session_goes_on inputs st :
  (∀ o, console o = None) →
  reportable_failures oc rs no_rag →
  ∀ e, (interactive_chat console oc rs no_rag inputs st).1.1 ≠ Abort e.
Proof.
  intros Hall Hgw. revert st.
  induction inputs as [|ui inputs IH]; intros st e; [done|].
  cbn [interactive_chat].
  pose proof (λ e', proj1 (turn_abort_rendering ui st e' Hall)) as Hab.
  destruct (turn console oc rs no_rag ui st) as [[k st'] ev].
  cbn [fst snd] in Hab.
  destruct k as [| |e0].
  - specialize (IH st' e).
    by destruct (interactive_chat console oc rs no_rag inputs st')
      as [[k' st''] ev'].
  - done.
  - destruct (Hab e0 eq_refl) as (_ & Hg & He).
    apply Hgw in Hg as [->|[Hex Hne]].
    + by destruct He as [[_ ?]|?].
    + destruct He as [[? _]|?]; congruence.
Qed.

(** [chat] exits with status 1 whenever the backend is not connected or a
    conversation id was given (and is not empty) that the store does not
    hold; it then leaves the store as it was and has asked nothing of a
    gateway. With a console that renders everything and a gateway whose
    failures can be reported, these are the only cases in which it exits
    with status 1. *)
Theorem chat_exit_status (conversation_id : option pystr)
    (inputs : list pystr) (s : Store) :
  let r := chat console oc rs no_rag conversation_id inputs s in
  (connected (health_check oc) = false ∨ unknown_given conversation_id s
   → r.1.1 = 1%Z ∧ r.1.2 = s ∧ calls r.2 = [])
  ∧ ((∀ o, console o = None) →
     reportable_failures oc rs no_rag →
     (r.1.1 = 1%Z
      ↔ connected (health_check oc) = false
        ∨ unknown_given conversation_id s)).
Proof.
  cbv zeta. unfold chat.
  destruct (setup_run conversation_id s) as (r & outs & -> & Hraise & Hret).
  assert (Hfail : connected (health_check oc) = false
                  ∨ unknown_given conversation_id s →
                  ∃ e, r = Raised e ∧ exit_status e = 1%Z
                       ∧ (if connected (health_check oc) then
                            match conversation_id ≫= or_None with
                            | Some _ => s
                            | None => (create_conversation None s).2
                            end
                          else s) = s).
  { intros H. destruct (Hraise H) as (e & -> & He). exists e.
    split; [done|]. split; [done|].
    destruct H as [-> |(cid & -> & _)]; [done|].
    by destruct (connected (health_check oc)). }
  split.
  - intros H. destruct (Hfail H) as (e & -> & He & ->). cbn [fst snd manager].
    split; [done|]. split; [done|]. apply calls_prints.
  - intros Hall Hgw.
    split; [|by intros H; destruct (Hfail H) as (e & -> & ? & _)].
    destruct r as [[]|e].
    + pose proof (session_goes_on inputs
                    {| manager :=
                         if connected (health_check oc) then
                           match conversation_id ≫= or_None with
                           | Some _ => s
                           | None => (create_conversation None s).2
                           end
                         else s;
                       current_id := None |} Hall Hgw) as Hgo.
      destruct (interactive_chat console oc rs no_rag inputs _)
        as [[k st] ev].
      cbn [fst snd] in *. destruct k as [| |e]; try done.
      by destruct (Hgo e).
    + intros _. destruct Hret as [?|[?|(o & f & Ho)]]; [done|auto|auto|].
      by rewrite Hall in Ho.
Qed.

Lemma turn_calls_bound ui st :
  length (calls (turn console oc rs no_rag ui st).2)
  ≤ if is_question ui then 1 else 0.
Proof.
  destruct (reaches_generation st ui) eqn:Hr.
  - pose proof (reaches_generation_question ui st Hr) as Hq. rewrite Hq.
    unfold reaches_generation in Hr. rewrite Hq in Hr. cbn [andb] in Hr.
    destruct (current_id st) as [cid|] eqn:Hcur; [|done].
    apply bool_decide_eq_true in Hr as [conv Hconv].
    by rewrite (turn_calls_reaching console oc rs no_rag ui st cid conv
                  Hcur Hconv Hq).
  - rewrite (turn_calls_not_reaching console oc rs no_rag ui st Hr).
    destruct (is_question ui); simpl; lia.
Qed.

(** A session asks the gateways at most once per question typed: commands
    and blank lines never cause a request. *)
Theorem one_request_per_question (inputs : list pystr) (st : ChatState) :
  length (calls (interactive_chat console oc rs no_rag inputs st).2)
  ≤ length (filter (λ ui, is_question ui = true) inputs).
Proof.
  revert st. induction inputs as [|ui inputs IH]; intros st; [done|].
  pose proof (turn_calls_bound ui st) as Hb.
  cbn [interactive_chat].
  destruct (turn console oc rs no_rag ui st) as [[k st'] ev].
  cbn [snd] in Hb.
  assert (Hf : (if is_question ui then 1 else 0)
               + length (filter (λ ui, is_question ui = true) inputs)
               = length (filter (λ ui, is_question ui = true) (ui :: inputs))).
  { destruct (is_question ui) eqn:Hq.
    - by rewrite filter_cons_True.
    - rewrite filter_cons_False; [done|]. by rewrite Hq. }
  destruct k.
  - specialize (IH st').
    destruct (interactive_chat console oc rs no_rag inputs st')
      as [[k' st''] ev'].
    cbn [snd] in *. rewrite calls_app, length_app. lia.
  - cbn [snd]. lia.
  - cbn [snd]. lia.
Qed.

Lemma history_contents_clipped (l : list Message) :
  history_contents
    (concat ((λ msg, [HistoryRole (role msg);
                      HistoryContent (preview (msg_content msg));
                      BlankLine]) <$> l))
  = (λ m, Commands.clip 200 (msg_content m)) <$> l.
Proof.
  induction l as [|m l IH]; [done|].
  rewrite !fmap_cons. cbn [concat app]. unfold history_contents in *.
  cbn [omap list_omap]. by rewrite IH.
Qed.

(** The [history] command, given while [current_id] is bound to a
    conversation of the store, changes nothing. It asks the console to
    show the title and then, for every message of that conversation in
    order, the role, the content (more than 200 characters cut to 200 and
    marked by three dots) and a blank line; a conversation without
    messages is reported as having none. All of it is shown and the loop
    goes on when the console renders it. If not, the listing stops before
    the first output on which the console fails, and the loop ends unless
    the fault is one whose message can be printed. *)
Theorem history_command_lists_all_messages (ui : pystr) (st : ChatState)
    (cid : pystr) (conv : Conversation) :
  is_history ui = true →
  current_id st = Some cid →
  conversations (manager st) !! cid = Some conv →
  let outs := history_outputs conv in
  turn console oc rs no_rag ui st
  = (match first_fault console outs with
     | Some ClosingTag => Abort (MarkupError ClosingTag)
     | _ => Continue
     end,
     st,
     (Print <$> shown_prefix console outs)
     ++ match first_fault console outs with
        | Some HandlerParameters =>
            [Print (ErrorLine (MarkupError HandlerParameters))]
        | _ => []
        end)
  ∧ (first_fault console outs = None →
     turn console oc rs no_rag ui st = (Continue, st, Print <$> outs))
  ∧ history_contents outs
    = (λ m, Commands.clip 200 (msg_content m)) <$> messages conv
  ∧ (messages conv = [] ↔ outs = [NoHistory]).
Proof.
  intros Hh Hcur Hconv. cbv zeta.
  rewrite (turn_history console oc rs no_rag ui st Hh), Hcur, Hconv.
  cbv zeta. split; [|split; [|split]].
  - unfold after_printing.
    destruct (first_fault console (history_outputs conv)) as [[]|];
      cbn; by rewrite ?app_nil_r.
  - intros H. by rewrite (after_printing_all console _ H).
  - unfold history_outputs. destruct (messages conv) as [|m ms]; [done|].
    apply (history_contents_clipped (m :: ms)).
  - unfold history_outputs. by destruct (messages conv).
Qed.

End Session.

End SessionFacts.

(** ** Facts about the other commands *)

Module CommandFacts.
Import ConversationManager Commands SessionSpec.

(** A clipped text is never longer than the limit plus the three dots, it
    starts like the text itself, and a text within the limit is shown
    whole; the preview of a message in the history is the clip at 200. *)
Theorem clip_bounds (limit : nat) (text : pystr) :
  length (clip limit text) ≤ limit + 3
  ∧ take limit (clip limit text) = take limit text
  ∧ (length text ≤ limit → clip limit text = text)
  ∧ Cli.preview text = clip 200 text.
Proof.
  unfold clip. destruct (limit <? length text) eqn:E.
  - apply Nat.ltb_lt in E. split; [|split; [|split]].
    + rewrite length_app, length_take. simpl. lia.
    + rewrite take_app_le by (rewrite length_take; lia).
      by rewrite take_take, Nat.min_id.
    + lia.
    + done.
  - apply Nat.ltb_ge in E. repeat split; (lia || done).
Qed.

Lemma panels_numbered (n : nat) (l : list RetrievalResult) :
  panels ((λ '(i, result),
             Panel i (source result) (score result)
               (clip 300 (content result)))
            <$> zip (seq n (length l)) l)
  = imap (λ i r, (n + i, source r, score r, clip 300 (content r))) l.
Proof.
  revert n. induction l as [|r l IH]; intros n; [done|].
  cbn [length seq]. unfold zip. cbn [zip_with]. rewrite fmap_cons.
  unfold panels. cbn [omap list_omap]. fold (panels
    ((λ '(i, result),
        Panel i (source result) (score result) (clip 300 (content result)))
       <$> zip (seq (S n) (length l)) l)).
  rewrite IH, imap_cons. f_equal; [by rewrite Nat.add_0_r|].
  apply imap_ext. intros i x _. simpl. do 3 f_equal. lia.
Qed.

Lemma panels_of_results (query : pystr) (rs : list RetrievalResult) :
  panels (ResultsHeader query
          :: ((λ '(i, result),
                 Panel i (source result) (score result)
                   (clip 300 (content result)))
                <$> Cli.enumerate1 rs))
  = result_panels rs.
Proof.
  unfold Cli.enumerate1, result_panels.
  change (panels (ResultsHeader query :: ?l)) with (panels l).
  by rewrite (panels_numbered 1 rs).
Qed.

Section Console.
Context (console : Output → option MarkupFault).

(** A sequence of prints: what is shown is a leading part of it, all of
    it exactly when the sequence ends normally, which it does when the
    console renders every output; otherwise it ends by the [MarkupError]
    of an output on which the console fails. *)
Lemma print_all_run (outs : list Output) :
  let r := print_all console outs in
  r.2 `prefix_of` outs
  ∧ (r.1 = Returned tt → r.2 = outs)
  ∧ (∀ e, r.1 = Raised e →
          ∃ f o, e = MarkupError f ∧ o ∈ outs ∧ console o = Some f)
  ∧ ((∀ o, o ∈ outs → console o = None) → r.1 = Returned tt).
Proof.
  induction outs as [|o outs IH]; cbv zeta.
  { cbn. repeat split; try done. }
  cbn [print_all].
  destruct (fault console o) as [f|] eqn:Hf.
  - cbn [fst snd]. split; [apply prefix_nil|]. split; [done|].
    assert (Ho : console o = Some f) by (by destruct o).
    split.
    + intros e [= <-]. exists f, o. split; [done|]. split; [by left|done].
    + intros Hall. rewrite Hall in Ho by (by left). done.
  - cbv zeta in IH. destruct (print_all console outs) as [r shown].
    cbn [fst snd] in *. destruct IH as (IH1 & IH2 & IH3 & IH4).
    split; [by apply prefix_cons|]. split; [|split].
    + intros H. by rewrite (IH2 H).
    + intros e H. destruct (IH3 e H) as (f & o' & -> & Hin & Ho).
      exists f, o'. split; [done|]. split; [by right|done].
    + intros Hall. apply IH4. intros o' Hin. apply Hall. by right.
Qed.

Lemma panels_prefix (shown outs : list Output) :
  shown `prefix_of` outs → panels shown `prefix_of` panels outs.
Proof.
  intros [rest ->]. unfold panels. rewrite omap_app. by apply prefix_app_r.
Qed.

(** When [retrieve] returns, the panels [search_knowledge] shows are a
    leading part of the panels of the results: one per result, in the
    order of the results and numbered from 1, with the source, the score
    and the content clipped at 300 characters. All of them are shown when
    the command ends normally, which it does whenever the console renders
    the header and the panels; otherwise it ends by the [MarkupError] of
    the console. Without results the no-result message is shown and
    nothing else. An exception of [retrieve] leaves the command. *)
Theorem search_knowledge_panels
    (retrieve : pystr → Z → Outcome (list RetrievalResult))
    (query : pystr) (top_k : Z) :
  match retrieve query top_k with
  | Returned rs =>
      let r := search_knowledge console retrieve query top_k in
      panels r.2 `prefix_of` result_panels rs
      ∧ (r.1 = Returned tt → panels r.2 = result_panels rs)
      ∧ (rs = [] → r = (Returned tt, [NoResults]))
      ∧ (rs ≠ [] → NoResults ∉ r.2)
      ∧ (∀ e, r.1 = Raised e → ∃ f o, e = MarkupError f ∧ console o = Some f)
      ∧ ((∀ o, console o = None) → r.1 = Returned tt)
  | Raised e => search_knowledge console retrieve query top_k = (Raised e, [])
  end.
Proof.
  unfold search_knowledge.
  destruct (retrieve query top_k) as [rs|e]; [|done].
  destruct rs as [|r rs]; cbv zeta.
  { cbn. repeat split; done. }
  set (outs := ResultsHeader query
               :: ((λ '(i, result),
                      Panel i (source result) (score result)
                        (clip 300 (content result)))
                     <$> Cli.enumerate1 (r :: rs))).
  destruct (print_all_run outs) as (H1 & H2 & H3 & H4).
  rewrite <- (panels_of_results query (r :: rs)). fold outs.
  split; [by apply panels_prefix|]. split; [by intros ->%H2|].
  split; [done|]. split; [|split].
  - intros _ Hin. destruct H1 as [rest Hrest].
    assert (Hin' : NoResults ∈ outs).
    { rewrite Hrest. apply elem_of_app. by left. }
    subst outs. apply elem_of_cons in Hin' as [?|Hin']; [done|].
    by apply list_elem_of_fmap in Hin' as ([i x] & ? & _).
  - intros e He. destruct (H3 e He) as (f & o & -> & _ & Ho). eauto.
  - intros Hall. apply H4. intros o _. apply Hall.
Qed.

End Console.

(** The [delete_conversation] command changes the store only when the user
    confirms and the conversation exists. After a confirmed run the id is
    gone and every other conversation is as before; the success message is
    shown exactly when the user confirmed and the conversation existed. *)
Theorem delete_command_effect (cid : pystr) (confirmed : bool) (s : Store) :
  let r := Commands.delete_conversation cid confirmed s in
  (confirmed = false ∨ conversations s !! cid = None → r.1 = s)
  ∧ (confirmed = true → conversations r.1 !! cid = None)
  ∧ (∀ other, other ≠ cid →
       conversations r.1 !! other = conversations s !! other)
  ∧ (Deleted ∈ r.2
     ↔ confirmed = true ∧ is_Some (conversations s !! cid)).
Proof.
  unfold Commands.delete_conversation, ConversationManager.delete_conversation.
  destruct confirmed; cbn [negb fst snd conversations].
  - split; [|split; [|split]].
    + intros [?|Hn]; [done|]. destruct s as [m i c].
      cbn [conversations issued clock] in *. f_equal.
      by apply delete_id.
    + intros _. apply lookup_delete_eq.
    + intros other Hne. by apply lookup_delete_ne.
    + rewrite !elem_of_cons, elem_of_nil.
      case_bool_decide as Hs; split.
      * intros _. by split.
      * intros _. right. by left.
      * intros [?|[?|[]]]; done.
      * by intros [_ ?].
  - split; [done|]. split; [done|]. split; [done|].
    rewrite !elem_of_cons, elem_of_nil. split.
    + intros [?|[?|[]]]; done.
    + by intros [? _].
Qed.

End CommandFacts.

(** ** More facts about batch ingestion *)

Module ScriptFacts.
Import InitKnowledgeBase IngestSpec IngestFacts.

Section Script.
Context {KB : Type}.
Context (add_knowledge_from_file :
           pystr → list (pystr * pystr) → KB → (bool * Z) * KB).
Context (get_knowledge_stats : KB → KnowledgeStats).

Lemma outcomes_of_script entries kb :
  (λ o : pystr * bool * Z, o.1.1)
    <$> outcomes (init_knowledge_base add_knowledge_from_file
                    get_knowledge_stats (Some entries) kb).2
  = path_of <$> document_files entries.
Proof.
  unfold init_knowledge_base.
  destruct (document_files entries) as [|f fs] eqn:E; [done|].
  pose proof (import_files_counts add_knowledge_from_file (f :: fs) 0 0 kb)
    as H.
  destruct (import_files add_knowledge_from_file (f :: fs) 0 0 kb)
    as [[[c t] kb'] loop].
  cbn [fst snd] in *. destruct H as (H1 & _).
  rewrite !outcomes_app.
  change (outcomes [Shown Starting; Shown (Found (length (f :: fs)))])
    with (@nil (pystr * bool * Z)).
  change (outcomes [Shown (Summary c (length (f :: fs)) t);
                    Shown (Stats (get_knowledge_stats kb'))])
    with (@nil (pystr * bool * Z)).
  by rewrite app_nil_l, app_nil_r.
Qed.

(** A path is handed to [add_knowledge_from_file] exactly when it is the
    path of a directory entry that is a regular file and whose extension,
    put in lower case, is one of the four supported ones: sub-directories
    and other files are never ingested, an extension in capitals is. *)
Theorem ingested_iff_supported_file (entries : list DirEntry) (kb : KB)
    (p : pystr) :
  p ∈ (λ o : pystr * bool * Z, o.1.1)
        <$> outcomes (init_knowledge_base add_knowledge_from_file
                        get_knowledge_stats (Some entries) kb).2
  ↔ ∃ f, f ∈ entries
         ∧ is_file f = true
         ∧ lower (suffix f) ∈ supported_extensions
         ∧ path_of f = p.
Proof.
  rewrite outcomes_of_script, list_elem_of_fmap. unfold document_files.
  split.
  - intros (f & -> & Hf). apply list_elem_of_filter in Hf as [[? ?] ?].
    eauto.
  - intros (f & Hin & Hfile & Hext & <-). exists f. split; [done|].
    apply list_elem_of_filter. eauto.
Qed.

(** Nothing is ingested exactly when the directory is missing or holds no
    supported file; the knowledge base is then returned as it was. *)
Theorem nothing_to_import (dir : option (list DirEntry)) (kb : KB) :
  let r := init_knowledge_base add_knowledge_from_file get_knowledge_stats
             dir kb in
  (outcomes r.2 = []
   ↔ dir = None ∨ ∃ entries, dir = Some entries ∧ document_files entries = [])
  ∧ (outcomes r.2 = [] → r.1 = kb).
Proof.
  destruct dir as [entries|]; cbv zeta.
  2:{ split; [|done]. split; [auto|done]. }
  pose proof (outcomes_of_script entries kb) as Hpaths.
  unfold init_knowledge_base in *.
  destruct (document_files entries) as [|f fs] eqn:E.
  - split; [|done]. split; [|done]. intros _. right. eauto.
  - assert (Hne : outcomes
                    (let '(success_count, total, kb', steps) :=
                       import_files add_knowledge_from_file (f :: fs) 0 0 kb
                     in (kb',
                         [Shown Starting; Shown (Found (length (f :: fs)))]
                         ++ steps
                         ++ [Shown (Summary success_count
                                      (length (f :: fs)) total);
                             Shown (Stats (get_knowledge_stats kb'))])).2
                  ≠ []).
    { intros H0. rewrite H0 in Hpaths. done. }
    split; [|done]. split; [done|].
    intros [?|(entries' & [= <-] & ?)]; congruence.
Qed.

(** The summary line the script prints reports a number of successes
    between 0 and the number of documents found, and that number of
    documents is the number of supported files of the directory; when no
    document succeeded, the reported chunk total is 0. *)
Theorem summary_within_bounds (entries : list DirEntry) (kb : KB)
    (success_count : Z) (found : nat) (total : Z) :
  Shown (Summary success_count found total)
  ∈ (init_knowledge_base add_knowledge_from_file get_knowledge_stats
       (Some entries) kb).2 →
  (0 ≤ success_count ≤ Z.of_nat found)%Z
  ∧ found = length (document_files entries)
  ∧ (success_count = 0%Z → total = 0%Z).
Proof.
  unfold init_knowledge_base.
  destruct (document_files entries) as [|f fs] eqn:E.
  { cbn [snd]. rewrite !elem_of_cons, elem_of_nil. by intros [?|[?|[]]]. }
  pose proof (import_files_counts add_knowledge_from_file (f :: fs) 0 0 kb)
    as H.
  pose proof (import_files_no_summary add_knowledge_from_file (f :: fs) 0 0
                kb success_count found total) as Hno.
  destruct (import_files add_knowledge_from_file (f :: fs) 0 0 kb)
    as [[[c t] kb'] loop].
  cbn [fst snd] in *. destruct H as (H1 & H2 & H3).
  rewrite !elem_of_app, !elem_of_cons, elem_of_nil.
  intros [[?|[?|[]]]|[?|[Hs|[?|[]]]]]; try done.
  injection Hs as -> -> ->.
  assert (Hlen : length (successes (outcomes loop)) ≤ length (f :: fs)).
  { unfold successes. etrans; [apply length_filter|].
    apply (f_equal length) in H1. rewrite !length_fmap in H1. lia. }
  cbn [length] in Hlen. split; [lia|]. split; [done|].
  intros H0. rewrite H3.
  destruct (successes (outcomes loop)); [done|simpl in *; lia].
Qed.

(** For every document the loop prints exactly one line, in the order of
    the documents: the import line with the chunk count the service
    answered when it answered [success = True] for the document, the
    failure line when it answered [success = False]; and what the loop
    records for a document is the answer of the service. *)
Theorem one_line_per_document (files : list DirEntry) (kb : KB) :
  let steps := (import_files add_knowledge_from_file files 0 0 kb).2 in
  let answers := service_answers add_knowledge_from_file files kb in
  outcomes steps = answers
  ∧ printed steps = zip_with result_line files answers
  ∧ length (printed steps) = length files
  ∧ length answers = length files.
Proof.
  cbv zeta.
  destruct (import_files_answers add_knowledge_from_file files 0 0 kb)
    as (H1 & H2 & _).
  assert (Hlen : length (service_answers add_knowledge_from_file files kb)
                 = length files).
  { pose proof (service_answers_paths add_knowledge_from_file files kb) as H.
    apply (f_equal length) in H. by rewrite !length_fmap in H. }
  split; [done|]. split; [done|]. split; [|done].
  rewrite H2, length_zip_with. lia.
Qed.

End Script.

End ScriptFacts.

(** ** Sessions, commands and the script on sample runs *)

Module ExtraChecks.
Import ConversationManager Cli ChatSpec SessionSpec Samples SessionFacts.

Lemma sample_store_well_formed :
  well_formed (manager at_start) ∧ well_formed (manager after_new)
  ∧ well_formed (manager after_one_question).
Proof. unfold well_formed. repeat split; compute_done. Qed.

Lemma nothing_happens_before_new_witness :
  (interactive_chat rich_like ollama_up rag_up false
     [squat_question; lit "history"; lit "help"; lit "  "] at_start).1.2
  = at_start
  ∧ calls (interactive_chat rich_like ollama_up rag_up false
             [squat_question; lit "history"; lit "help"; lit "  "]
             at_start).2 = [].
Proof.
  apply (nothing_happens_before_new rich_like ollama_up rag_up false
           [squat_question; lit "history"; lit "help"; lit "  "] at_start).
  - reflexivity.
  - repeat constructor.
Defined.

Lemma turn_breaks_iff_witness :
  (turn renders_all ollama_up rag_interrupted false squat_question
     after_new).1.1 = Break
  ∧ (turn renders_all ollama_up rag_cancelled false squat_question
       after_new).1.1 = Abort CancelledError.
Proof.
  split.
  - apply (proj1 (turn_breaks_iff renders_all ollama_up rag_interrupted false
                    squat_question after_new)).
    right. split; vm_compute; reflexivity.
  - apply (proj2 (proj2 (turn_breaks_iff renders_all ollama_up rag_cancelled
                           false squat_question after_new))
             (λ _, eq_refl)).
    split; [vm_compute; reflexivity|]. split; [vm_compute; reflexivity|].
    left. split; [reflexivity|discriminate].
Defined.

(** A cancelled generation ends the program with status 1, the user
    message recorded. *)
Example cancelled_generation_ends_chat :
  let run :=
    chat renders_all ollama_up rag_cancelled false None
      [lit "new legs"; squat_question; lit "help"] empty in
  run.1.1 = 1%Z
  ∧ get_conversation_history legs_id run.1.2
    = [user_message squat_question 2]
  ∧ calls run.2 = [CallGenerateAnswer squat_question []].
Proof. vm_compute. auto. Qed.

Lemma other_turns_change_nothing_witness :
  (turn rich_like ollama_up rag_up false (lit "Help") after_one_question).1.2
  = after_one_question
  ∧ calls (turn rich_like ollama_up rag_up false (lit "Help")
             after_one_question).2
    = [].
Proof.
  apply (other_turns_change_nothing rich_like ollama_up rag_up false
           (lit "Help") after_one_question); vm_compute; reflexivity.
Defined.

Lemma lines_after_quit_are_ignored_witness :
  interactive_chat rich_like ollama_up rag_up false
    ([lit "new legs"; squat_question] ++ lit "EXIT" :: [lit "and lunges?"])
    at_start
  = interactive_chat rich_like ollama_up rag_up false
      ([lit "new legs"; squat_question] ++ [lit "EXIT"]) at_start.
Proof.
  apply (lines_after_quit_are_ignored rich_like ollama_up rag_up false
           [lit "new legs"; squat_question] (lit "EXIT")
           [lit "and lunges?"] at_start).
  vm_compute. reflexivity.
Defined.

Lemma new_command_opens_conversation_witness :
  let st' :=
    (turn rich_like ollama_up rag_up false (lit "NEW  Leg day ")
       at_start).1.2 in
  ∃ c, current_id st' = Some (id c)
       ∧ conversations (manager st') !! id c = Some c
       ∧ messages c = []
       ∧ title c = default (placeholder_title (clock (manager at_start)))
                     (or_None (strip (drop 4 (lit "NEW  Leg day "))))
       ∧ ∀ q, is_question q = true → reaches_generation st' q = true.
Proof.
  apply (new_command_opens_conversation rich_like ollama_up rag_up false
           (lit "NEW  Leg day ") at_start).
  vm_compute. reflexivity.
Defined.

Example new_title_is_stripped :
  title <$> (conversations
               (manager (turn rich_like ollama_up rag_up false
                           (lit "NEW  Leg day ") at_start).1.2) !! legs_id)
  = Some (lit "Leg day").
Proof. vm_compute. reflexivity. Qed.

Lemma chat_keeps_existing_conversations_witness :
  conversations
    (chat rich_like ollama_up rag_up false (Some legs_id)
       [squat_question; lit "new arms"; lit "how do I curl?"]
       (manager after_new)).1.2 !! legs_id
  = Some legs.
Proof.
  apply (chat_keeps_existing_conversations rich_like ollama_up rag_up false
           (Some legs_id)
           [squat_question; lit "new arms"; lit "how do I curl?"]
           (manager after_new) legs_id legs).
  - apply sample_store_well_formed.
  - vm_compute. reflexivity.
Defined.

Lemma startup_conversation_stays_empty_witness :
  ∃ c, conversations
         (chat rich_like ollama_up rag_up false None
            [squat_question; lit "new arms"; lit "how do I curl?"]
            empty).1.2 !! fresh (issued empty) = Some c
       ∧ messages c = [].
Proof.
  apply (startup_conversation_stays_empty rich_like ollama_up rag_up false
           [squat_question; lit "new arms"; lit "how do I curl?"] empty).
  - unfold well_formed. compute_done.
  - reflexivity.
Defined.

Lemma turn_appends_at_most_two_witness :
  ∃ added,
    get_conversation_history legs_id
      (manager (turn rich_like ollama_up rag_up false (lit "and lunges?")
                  after_one_question).1.2)
    = get_conversation_history legs_id (manager after_one_question) ++ added
    ∧ length added ≤ 2.
Proof.
  apply (turn_appends_at_most_two rich_like ollama_up rag_up false
           (lit "and lunges?") after_one_question legs_id).
  apply sample_store_well_formed.
Defined.

Lemma session_is_append_only_witness :
  get_conversation_history legs_id (manager after_one_question)
  `prefix_of`
  get_conversation_history legs_id
    (manager (interactive_chat rich_like ollama_up rag_up false
                [lit "and lunges?"; lit "new arms"; lit "quit"]
                after_one_question).1.2).
Proof.
  apply (session_is_append_only rich_like ollama_up rag_up false
           [lit "and lunges?"; lit "new arms"; lit "quit"]
           after_one_question legs_id).
  apply sample_store_well_formed.
Defined.

Lemma chat_exit_status_witness :
  let r := chat rich_like ollama_off rag_up false None [squat_question] empty
  in r.1.1 = 1%Z ∧ r.1.2 = empty ∧ calls r.2 = [].
Proof.
  apply (proj1 (chat_exit_status rich_like ollama_off rag_up false None
                  [squat_question] empty)).
  left. reflexivity.
Defined.

(** Continuing a conversation whose title holds a closing tag: the
    program ends with status 1 before the loop is entered, although the
    backend is connected and the conversation exists. *)
Example tagged_title_ends_startup :
  let s :=
    (create_conversation (Some (lit "[/] day")) (manager at_start)).2 in
  title <$> conversations s !! legs_id = Some (lit "[/] day")
  ∧ chat rich_like ollama_up rag_up false (Some legs_id) [squat_question] s
    = (1%Z, s, [Print Banner; Print (ServiceStatus healthy)]).
Proof. vm_compute. auto. Qed.

Lemma history_command_lists_all_messages_witness :
  turn renders_all ollama_up rag_up false (lit "History") after_one_question
  = (Continue, after_one_question,
     [Print (HistoryTitle (lit "legs"));
      Print (HistoryRole USER); Print (HistoryContent squat_question);
      Print BlankLine;
      Print (HistoryRole ASSISTANT);
      Print (HistoryContent (lit "Squat with a straight back."));
      Print BlankLine]).
Proof.
  assert (Hconv : conversations (manager after_one_question) !! legs_id
                  = Some {| id := legs_id; title := lit "legs";
                            messages :=
                              [user_message squat_question 2;
                               assistant_message
                                 (lit "Squat with a straight back.")
                                 four_passages 3];
                            created_at := 1; updated_at := 3 |})
    by (vm_compute; reflexivity).
  destruct (history_command_lists_all_messages renders_all ollama_up rag_up
              false (lit "History") after_one_question legs_id _ eq_refl
              eq_refl Hconv) as (_ & H & _).
  exact (H eq_refl).
Defined.

(** A message that quotes a closing tag: the [history] command shows the
    title and the role of the first message, fails on its content, and
    the loop ends. *)
Example tagged_message_ends_history :
  let st :=
    (interactive_chat rich_like ollama_up rag_up false
       [lit "new legs"; lit "what does [/] mean?"] at_start).1.2 in
  turn rich_like ollama_up rag_up false (lit "history") st
  = (Abort (MarkupError ClosingTag), st,
     [Print (HistoryTitle (lit "legs")); Print (HistoryRole USER)]).
Proof. vm_compute. reflexivity. Qed.

Example search_two_passages :
  Commands.search_knowledge renders_all retrieve_passages (lit "squat") 2
  = (Returned tt,
     [Commands.ResultsHeader (lit "squat");
      Commands.Panel 1 (lit "squat.md") (9 # 10) (lit "text of squat.md");
      Commands.Panel 2 (lit "diet.md") (3 # 4) (lit "text of diet.md")]).
Proof. vm_compute. reflexivity. Qed.

(** A passage that quotes a closing tag: the first panel is shown, the
    second is not, and the command ends by [MarkupError]. *)
Example tagged_passage_ends_search :
  Commands.search_knowledge panel_console retrieve_tagged (lit "tags") 3
  = (Raised (MarkupError ClosingTag),
     [Commands.ResultsHeader (lit "tags");
      Commands.Panel 1 (lit "squat.md") (9 # 10) (lit "text of squat.md")]).
Proof. vm_compute. reflexivity. Qed.

Lemma summary_within_bounds_witness :
  (0 ≤ 2 ≤ Z.of_nat 3)%Z
  ∧ 3 = length (InitKnowledgeBase.document_files three_files)
  ∧ (2%Z = 0%Z → 4%Z = 0%Z).
Proof.
  apply (ScriptFacts.summary_within_bounds counting_ingest counting_stats
           three_files 0%Z 2%Z 3 4%Z).
  vm_compute. do 8 apply list_elem_of_further. apply list_elem_of_here.
Defined.

Example three_files_lines :
  IngestSpec.printed
    (InitKnowledgeBase.import_files counting_ingest
       (InitKnowledgeBase.document_files three_files) 0 0 0%Z).2
  = [InitKnowledgeBase.Imported (lit "a.md") 2;
     InitKnowledgeBase.ImportFailed (lit "bad.pdf");
     InitKnowledgeBase.Imported (lit "plan.TXT") 2].
Proof. vm_compute. reflexivity. Qed.

End ExtraChecks.
